(** * Kafka bridge of Home Assistant: state-change events to several topics

    A shallow embedding of
    [custom_components/kafka_multiple_topics/__init__.py]:
    the payload encoder ([DateTimeJSONEncoder], [KafkaManager._encode_event]),
    the fan-out loop ([KafkaManager.write]) and the life cycle
    ([KafkaManager.start], [KafkaManager.shutdown]).

    The encoder is decided by Python's [json] module, so the part of that
    module the code runs through ([json.dumps] with a [default] hook,
    [encode_basestring_ascii], and on the reading side the scanner of
    [json.decoder]) is embedded as well, function by function. *)

From Stdlib Require Import List NArith ZArith Lia Bool Ascii.
From Stdlib Require Import String.
From Stdlib Require Import Strings.Byte.
From Stdlib Require Import DecimalFacts DecimalN.
Import ListNotations.


(* ================================================================== *)
(** * Python values *)
(* ================================================================== *)

Module Py.

(** A Python [str] is a sequence of code points, a [bytes] a sequence of
    octets. *)
Definition str := list N.
Definition bytes := list byte.

Definition ord (a : ascii) : N := N_of_ascii a.

(** A literal of the source text, as a [str]. *)
Definition lit (s : String.string) : str :=
  map ord (String.list_ascii_of_string s).

Fixpoint str_eqb (a b : str) : bool :=
  match a, b with
  | [], [] => true
  | x :: a', y :: b' => (x =? y)%N && str_eqb a' b'
  | _, _ => false
  end.

(** Exceptions that the modelled code paths can raise. *)
Inductive exn :=
| TypeError            (* json: Object of type ... is not JSON serializable *)
| UnicodeEncodeError   (* str.encode: surrogates not allowed *)
| KafkaError.          (* any failure reported by the broker connection *)

(** A computation that returns or raises. *)
Inductive result (A : Type) :=
| Ok (a : A)
| Raise (e : exn).
Arguments Ok {A} a.
Arguments Raise {A} e.

Definition rbind {A B} (r : result A) (k : A -> result B) : result B :=
  match r with
  | Ok a => k a
  | Raise e => Raise e
  end.

(** ** Decimal and hexadecimal text *)

Local Open Scope N_scope.

Fixpoint chars_of_uint (d : Decimal.uint) : str :=
  match d with
  | Decimal.Nil => []
  | Decimal.D0 d' => 48 :: chars_of_uint d'
  | Decimal.D1 d' => 49 :: chars_of_uint d'
  | Decimal.D2 d' => 50 :: chars_of_uint d'
  | Decimal.D3 d' => 51 :: chars_of_uint d'
  | Decimal.D4 d' => 52 :: chars_of_uint d'
  | Decimal.D5 d' => 53 :: chars_of_uint d'
  | Decimal.D6 d' => 54 :: chars_of_uint d'
  | Decimal.D7 d' => 55 :: chars_of_uint d'
  | Decimal.D8 d' => 56 :: chars_of_uint d'
  | Decimal.D9 d' => 57 :: chars_of_uint d'
  end.

(** [repr] of a natural number: its decimal digits. *)
Definition repr_N (n : N) : str := chars_of_uint (N.to_uint n).

(** [int.__repr__]. *)
Definition int_repr (z : Z) : str :=
  match z with
  | Zneg p => 45 :: repr_N (Npos p)
  | _ => repr_N (Z.to_N z)
  end.

(** ["%0wd" % n] for a natural number. *)
Definition zero_pad (w : nat) (n : N) : str :=
  let ds := repr_N n in
  repeat 48 (w - List.length ds) ++ ds.

(** One lowercase hexadecimal digit. *)
Definition hexdigit (v : N) : N :=
  if v <? 10 then 48 + v else 87 + v.

(** ['{0:04x}'.format(n)], for [n] below [0x10000]. *)
Definition format_04x (n : N) : str :=
  [ hexdigit ((n / 4096) mod 16); hexdigit ((n / 256) mod 16);
    hexdigit ((n / 16) mod 16); hexdigit (n mod 16) ].

(** ** datetime *)

(** [datetime.datetime]; [utcoffset] is [None] for a naive value and the
    offset from UTC in seconds for an aware one. *)
Record datetime := {
  year : N; month : N; day : N;
  hour : N; minute : N; second : N; microsecond : N;
  utcoffset : option Z
}.

(** [_format_time] with [timespec='auto']. *)
Definition _format_time (hh mm ss us : N) : str :=
  zero_pad 2 hh ++ [58] ++ zero_pad 2 mm ++ [58] ++ zero_pad 2 ss
  ++ (if us =? 0 then [] else 46 :: zero_pad 6 us).

(** [_format_offset]. *)
Definition _format_offset (off : option Z) : str :=
  match off with
  | None => []
  | Some o =>
    let sign := if (o <? 0)%Z then 45 else 43 in
    let a := Z.to_N (Z.abs o) in
    let hh := a / 3600 in
    let mm := (a mod 3600) / 60 in
    let ss := (a mod 3600) mod 60 in
    sign :: zero_pad 2 hh ++ [58] ++ zero_pad 2 mm
    ++ (if ss =? 0 then [] else 58 :: zero_pad 2 ss)
  end.

(** [datetime.isoformat()], with the default separator ['T']. *)
Definition isoformat (d : datetime) : str :=
  zero_pad 4 (year d) ++ [45] ++ zero_pad 2 (month d) ++ [45]
  ++ zero_pad 2 (day d) ++ [84]
  ++ _format_time (hour d) (minute d) (second d) (microsecond d)
  ++ _format_offset (utcoffset d).

(** ** Objects *)

(** The objects that can occur in a state's dictionary.  A [float] is
    carried as the text [float.__repr__] prints for it (["nan"], ["inf"]
    and ["-inf"] for the three special values); [PyOther] is an object
    of any other class (a set, a date, a Decimal, ...), named by its
    class. *)
#[local] Unset Elimination Schemes.
Inductive obj :=
| PyNone
| PyBool (b : bool)
| PyInt (z : Z)
| PyFloat (r : str)
| PyStr (s : str)
| PyList (l : list obj)
| PyDict (d : list (str * obj))
| PyDatetime (d : datetime)
| PyOther (cls : str).
#[local] Set Elimination Schemes.

(** Induction over objects, through the items of lists and the values of
    dictionaries. *)
Section ObjInd.

Variable P : obj -> Prop.
Hypothesis HNone : P PyNone.
Hypothesis HBool : forall b, P (PyBool b).
Hypothesis HInt : forall z, P (PyInt z).
Hypothesis HFloat : forall r, P (PyFloat r).
Hypothesis HStr : forall s, P (PyStr s).
Hypothesis HList : forall l, Forall P l -> P (PyList l).
Hypothesis HDict :
  forall d, Forall (fun kv => P (snd kv)) d -> P (PyDict d).
Hypothesis HDatetime : forall d, P (PyDatetime d).
Hypothesis HOther : forall cls, P (PyOther cls).

Fixpoint obj_ind (o : obj) : P o :=
  match o with
  | PyNone => HNone
  | PyBool b => HBool b
  | PyInt z => HInt z
  | PyFloat r => HFloat r
  | PyStr s => HStr s
  | PyList l =>
    HList l
      ((fix items (l : list obj) : Forall P l :=
          match l with
          | [] => Forall_nil P
          | x :: l' => Forall_cons x (obj_ind x) (items l')
          end) l)
  | PyDict d =>
    HDict d
      ((fix items (d : list (str * obj))
          : Forall (fun kv => P (snd kv)) d :=
          match d with
          | [] => Forall_nil _
          | kv :: d' =>
            Forall_cons (P := fun kv => P (snd kv)) kv
                        (obj_ind (snd kv)) (items d')
          end) d)
  | PyDatetime d => HDatetime d
  | PyOther cls => HOther cls
  end.

End ObjInd.

End Py.

(* ================================================================== *)
(** * The [json] module and the UTF-8 codec *)
(* ================================================================== *)

Module Json.
Import Py.
Local Open Scope N_scope.

(** ** [json.encoder] *)

(** [ESCAPE_ASCII]: the characters that [encode_basestring_ascii]
    rewrites, which are the backslash, the double quote and everything
    outside the range from space to tilde. *)
Definition ESCAPE_ASCII (c : N) : bool :=
  (c =? 92) || (c =? 34) || negb ((32 <=? c) && (c <=? 126)).

(** [ESCAPE_DCT], the two-character escapes.  (The table also lists the
    other control characters, with the [\u00XX] text that [replace]
    computes for them in any case.) *)
Definition ESCAPE_DCT (c : N) : option str :=
  if c =? 92 then Some [92; 92]          (* backslash     *)
  else if c =? 34 then Some [92; 34]     (* double quote  *)
  else if c =? 8 then Some [92; 98]      (* backspace     *)
  else if c =? 12 then Some [92; 102]    (* form feed     *)
  else if c =? 10 then Some [92; 110]    (* line feed     *)
  else if c =? 13 then Some [92; 114]    (* carriage ret. *)
  else if c =? 9 then Some [92; 116]     (* tab           *)
  else None.

(** [replace], the substitution applied to every match of [ESCAPE_ASCII]. *)
Definition replace (c : N) : str :=
  match ESCAPE_DCT c with
  | Some e => e
  | None =>
    if c <? 0x10000 then 92 :: 117 :: format_04x c
    else
      (* surrogate pair *)
      let n := c - 0x10000 in
      let s1 := N.lor 0xd800 (N.land (N.shiftr n 10) 0x3ff) in
      let s2 := N.lor 0xdc00 (N.land n 0x3ff) in
      (92 :: 117 :: format_04x s1) ++ (92 :: 117 :: format_04x s2)
  end.

Definition escape_char (c : N) : str :=
  if ESCAPE_ASCII c then replace c else [c].

(** [py_encode_basestring_ascii]: the JSON text of a Python string, in
    ASCII only. *)
Definition py_encode_basestring_ascii (s : str) : str :=
  34 :: flat_map escape_char s ++ [34].

(** [floatstr], with [allow_nan] left at its default. *)
Definition floatstr (r : str) : str :=
  if str_eqb r (lit "nan") then lit "NaN"
  else if str_eqb r (lit "inf") then lit "Infinity"
  else if str_eqb r (lit "-inf") then lit "-Infinity"
  else r.

Section Items.

(** The encoder of one value, as the loops over a list and over a
    dictionary use it. *)
Variable encode_value : obj -> result str.

(** The items of a list after the first, each after its separator. *)
Fixpoint _iterencode_list (l : list obj) : result str :=
  match l with
  | [] => Ok []
  | y :: l' =>
    rbind (encode_value y) (fun a =>
    rbind (_iterencode_list l') (fun b =>
    Ok (lit ", " ++ a ++ b)))
  end.

(** The items of a dictionary after the first, each after its separator. *)
Fixpoint _iterencode_dict (d : list (str * obj)) : result str :=
  match d with
  | [] => Ok []
  | (k, y) :: d' =>
    rbind (encode_value y) (fun a =>
    rbind (_iterencode_dict d') (fun b =>
    Ok (lit ", " ++ py_encode_basestring_ascii k ++ lit ": " ++ a ++ b)))
  end.

End Items.

Section Encoder.

(** The [default] hook of the encoder.  Both hooks of this program
    return a [str] (or raise), and the encoder then encodes that string. *)
Variable _default : obj -> result str.

(** [_iterencode], with the chunks it yields joined: separators are
    [', '] and [': '], there is no indentation, and keys are not sorted. *)
Fixpoint _iterencode (o : obj) : result str :=
  match o with
  | PyStr s => Ok (py_encode_basestring_ascii s)
  | PyNone => Ok (lit "null")
  | PyBool true => Ok (lit "true")
  | PyBool false => Ok (lit "false")
  | PyInt z => Ok (int_repr z)
  | PyFloat r => Ok (floatstr r)
  | PyList l =>
    match l with
    | [] => Ok (lit "[]")
    | x :: l' =>
      rbind (_iterencode x) (fun first =>
      rbind (_iterencode_list _iterencode l') (fun others =>
      Ok (91 :: first ++ others ++ [93])))
    end
  | PyDict d =>
    match d with
    | [] => Ok (lit "{}")
    | (k, x) :: d' =>
      rbind (_iterencode x) (fun first =>
      rbind (_iterencode_dict _iterencode d') (fun others =>
      Ok (123 :: py_encode_basestring_ascii k ++ lit ": "
          ++ first ++ others ++ [125])))
    end
  | PyDatetime _ | PyOther _ =>
    rbind (_default o) (fun s => Ok (py_encode_basestring_ascii s))
  end.

(** [JSONEncoder.encode]. *)
Definition JSONEncoder_encode (o : obj) : result str := _iterencode o.

End Encoder.

(** [JSONEncoder.default] of the base class: it always raises. *)
Definition JSONEncoder_default (o : obj) : result str := Raise TypeError.

(** [json.dumps(obj, default=...)], every other argument at its default. *)
Definition dumps (o : obj) (default : obj -> result str) : result str :=
  JSONEncoder_encode default o.

(** ** UTF-8 *)

Definition byte_of_N (n : N) : byte :=
  match Byte.of_N n with
  | Some b => b
  | None => x00
  end.

Definition utf8_of_char (c : N) : result bytes :=
  if c <? 0x80 then Ok [byte_of_N c]
  else if c <? 0x800 then
    Ok [byte_of_N (N.lor 0xC0 (N.shiftr c 6));
        byte_of_N (N.lor 0x80 (N.land c 0x3F))]
  else if c <? 0x10000 then
    if (0xD800 <=? c) && (c <=? 0xDFFF) then Raise UnicodeEncodeError
    else
      Ok [byte_of_N (N.lor 0xE0 (N.shiftr c 12));
          byte_of_N (N.lor 0x80 (N.land (N.shiftr c 6) 0x3F));
          byte_of_N (N.lor 0x80 (N.land c 0x3F))]
  else if c <? 0x110000 then
    Ok [byte_of_N (N.lor 0xF0 (N.shiftr c 18));
        byte_of_N (N.lor 0x80 (N.land (N.shiftr c 12) 0x3F));
        byte_of_N (N.lor 0x80 (N.land (N.shiftr c 6) 0x3F));
        byte_of_N (N.lor 0x80 (N.land c 0x3F))]
  else Raise UnicodeEncodeError.

(** [str.encode("utf-8")]. *)
Fixpoint str_encode_utf8 (s : str) : result bytes :=
  match s with
  | [] => Ok []
  | c :: s' =>
    rbind (utf8_of_char c) (fun a =>
    rbind (str_encode_utf8 s') (fun b => Ok (a ++ b)))
  end.

Definition is_cont (b : byte) : bool :=
  (0x80 <=? Byte.to_N b) && (Byte.to_N b <=? 0xBF).

Definition low6 (b : byte) : N := N.land (Byte.to_N b) 0x3F.

(** [bytes.decode("utf-8")], strict: overlong forms, surrogates and
    values above U+10FFFF are refused. *)
Fixpoint bytes_decode_utf8 (b : bytes) : option str :=
  match b with
  | [] => Some []
  | b0 :: t =>
    let n0 := Byte.to_N b0 in
    if n0 <? 0x80 then option_map (cons n0) (bytes_decode_utf8 t)
    else if n0 <? 0xC2 then None
    else if n0 <? 0xE0 then
      match t with
      | b1 :: t1 =>
        if is_cont b1
        then option_map (cons (N.lor (N.shiftl (N.land n0 0x1F) 6) (low6 b1)))
                        (bytes_decode_utf8 t1)
        else None
      | _ => None
      end
    else if n0 <? 0xF0 then
      match t with
      | b1 :: b2 :: t2 =>
        let c := N.lor (N.shiftl (N.land n0 0x0F) 12)
                       (N.lor (N.shiftl (low6 b1) 6) (low6 b2)) in
        if is_cont b1 && is_cont b2 && (0x800 <=? c)
           && negb ((0xD800 <=? c) && (c <=? 0xDFFF))
        then option_map (cons c) (bytes_decode_utf8 t2)
        else None
      | _ => None
      end
    else if n0 <? 0xF5 then
      match t with
      | b1 :: b2 :: b3 :: t3 =>
        let c := N.lor (N.shiftl (N.land n0 0x07) 18)
                       (N.lor (N.shiftl (low6 b1) 12)
                              (N.lor (N.shiftl (low6 b2) 6) (low6 b3))) in
        if is_cont b1 && is_cont b2 && is_cont b3
           && (0x10000 <=? c) && (c <? 0x110000)
        then option_map (cons c) (bytes_decode_utf8 t3)
        else None
      | _ => None
      end
    else None
  end.

(** ** [json.decoder] and [json.scanner] *)

(** The values [json.loads] builds.  An object keeps its pairs in the
    order of the text; a number with a fraction or an exponent keeps its
    text. *)
#[local] Unset Elimination Schemes.
Inductive json :=
| JNull
| JBool (b : bool)
| JInt (z : Z)
| JFloat (text : str)
| JStr (s : str)
| JArr (l : list json)
| JObj (d : list (str * json)).
#[local] Set Elimination Schemes.

(** [dict(pairs)[k]]: the pair read last wins. *)
Fixpoint dict_get (d : list (str * json)) (k : str) : option json :=
  match d with
  | [] => None
  | (k', v) :: d' =>
    match dict_get d' k with
    | Some w => Some w
    | None => if str_eqb k' k then Some v else None
    end
  end.

Definition hexval (c : N) : option N :=
  if (48 <=? c) && (c <=? 57) then Some (c - 48)
  else if (97 <=? c) && (c <=? 102) then Some (c - 87)
  else if (65 <=? c) && (c <=? 70) then Some (c - 55)
  else None.

(** [_decode_uXXXX]: four hexadecimal digits. *)
Definition _decode_uXXXX (h3 h2 h1 h0 : N) : option N :=
  match hexval h3, hexval h2, hexval h1, hexval h0 with
  | Some a, Some b, Some c, Some d => Some (((a * 16 + b) * 16 + c) * 16 + d)
  | _, _, _, _ => None
  end.

(** [BACKSLASH], the characters that may follow a backslash. *)
Definition BACKSLASH (esc : N) : option N :=
  if esc =? 34 then Some 34
  else if esc =? 92 then Some 92
  else if esc =? 47 then Some 47
  else if esc =? 98 then Some 8
  else if esc =? 102 then Some 12
  else if esc =? 110 then Some 10
  else if esc =? 114 then Some 13
  else if esc =? 116 then Some 9
  else None.

Definition push (c : N) (r : option (str * str)) : option (str * str) :=
  match r with
  | Some (v, rest) => Some (c :: v, rest)
  | None => None
  end.

Definition is_high_surrogate (c : N) : bool :=
  (0xd800 <=? c) && (c <=? 0xdbff).
Definition is_low_surrogate (c : N) : bool :=
  (0xdc00 <=? c) && (c <=? 0xdfff).

(** The code point that a pair of surrogates stands for. *)
Definition join_surrogates (uni uni2 : N) : N :=
  0x10000 + N.lor (N.shiftl (uni - 0xd800) 10) (uni2 - 0xdc00).

(** [py_scanstring] in strict mode, entered after the opening quote:
    the string read and the text after the closing quote. *)
Fixpoint py_scanstring (s : str) : option (str * str) :=
  match s with
  | [] => None
  | c :: t =>
    if c =? 34 then Some ([], t)
    else if c =? 92 then
      match t with
      | [] => None
      | esc :: t1 =>
        if esc =? 117 then
          match t1 with
          | h3 :: h2 :: h1 :: h0 :: t2 =>
            match _decode_uXXXX h3 h2 h1 h0 with
            | None => None
            | Some uni =>
              if is_high_surrogate uni then
                match t2 with
                | b :: u :: t3 =>
                  if (b =? 92) && (u =? 117) then
                    match t3 with
                    | g3 :: g2 :: g1 :: g0 :: t4 =>
                      match _decode_uXXXX g3 g2 g1 g0 with
                      | None => None
                      | Some uni2 =>
                        if is_low_surrogate uni2
                        then push (join_surrogates uni uni2) (py_scanstring t4)
                        else push uni (py_scanstring t2)
                      end
                    | _ => None
                    end
                  else push uni (py_scanstring t2)
                | _ => push uni (py_scanstring t2)
                end
              else push uni (py_scanstring t2)
            end
          | _ => None
          end
        else
          match BACKSLASH esc with
          | Some ch => push ch (py_scanstring t1)
          | None => None
          end
      end
    else if c <? 32 then None
    else push c (py_scanstring t)
  end.

Definition is_ws (c : N) : bool :=
  (c =? 32) || (c =? 9) || (c =? 10) || (c =? 13).

(** [WHITESPACE.match(s, end).end()]. *)
Fixpoint skip_ws (s : str) : str :=
  match s with
  | c :: t => if is_ws c then skip_ws t else s
  | [] => []
  end.

Definition is_digit (c : N) : bool := (48 <=? c) && (c <=? 57).

(** The longest run of digits at the head of the text, and what follows. *)
Fixpoint span_digits (s : str) : str * str :=
  match s with
  | c :: t =>
    if is_digit c
    then let (ds, rest) := span_digits t in (c :: ds, rest)
    else ([], s)
  | [] => ([], [])
  end.

Fixpoint uint_of_chars (s : str) : Decimal.uint :=
  match s with
  | [] => Decimal.Nil
  | c :: t =>
    let u := uint_of_chars t in
    if c =? 48 then Decimal.D0 u
    else if c =? 49 then Decimal.D1 u
    else if c =? 50 then Decimal.D2 u
    else if c =? 51 then Decimal.D3 u
    else if c =? 52 then Decimal.D4 u
    else if c =? 53 then Decimal.D5 u
    else if c =? 54 then Decimal.D6 u
    else if c =? 55 then Decimal.D7 u
    else if c =? 56 then Decimal.D8 u
    else Decimal.D9 u
  end.

(** [int(text)] for an optional minus sign and a run of digits. *)
Definition parse_int (neg : bool) (ds : str) : Z :=
  let n := Z.of_N (N.of_uint (uint_of_chars ds)) in
  if neg then (- n)%Z else n.

(** [NUMBER_RE], group by group.  The sign: *)
Definition take_sign (s : str) : bool * str :=
  match s with
  | c :: t => if c =? 45 then (true, t) else (false, s)
  | [] => (false, s)
  end.

(** The integer part: a single zero, or a run of digits that does not
    start with zero. *)
Definition take_integer (s : str) : option (str * str) :=
  match s with
  | [] => None
  | d :: t =>
    if is_digit d then
      if d =? 48 then Some ([d], t)
      else let (ds, rest) := span_digits t in Some (d :: ds, rest)
    else None
  end.

(** The fraction, when a point and at least one digit follow. *)
Definition take_fraction (s : str) : option str * str :=
  match s with
  | dot :: t =>
    if dot =? 46 then
      match span_digits t with
      | ([], _) => (None, s)
      | (fs, rest) => (Some (dot :: fs), rest)
      end
    else (None, s)
  | [] => (None, s)
  end.

(** The exponent, when the letter e, an optional sign and at least one
    digit follow. *)
Definition take_exponent (s : str) : option str * str :=
  match s with
  | e :: t =>
    if (e =? 101) || (e =? 69) then
      let (sign, t') :=
        match t with
        | sg :: t' => if (sg =? 45) || (sg =? 43) then ([sg], t') else ([], t)
        | [] => ([], t)
        end in
      match span_digits t' with
      | ([], _) => (None, s)
      | (es, rest) => (Some (e :: sign ++ es), rest)
      end
    else (None, s)
  | [] => (None, s)
  end.

(** [NUMBER_RE.match]: the sign, the integer part, the fraction and the
    exponent when the text has them, and what follows the number. *)
Definition match_number (s : str)
  : option (bool * str * option str * option str * str) :=
  let (neg, s0) := take_sign s in
  match take_integer s0 with
  | None => None
  | Some (int_ds, s1) =>
    let (frac, s2) := take_fraction s1 in
    let (exp, s3) := take_exponent s2 in
    Some (neg, int_ds, frac, exp, s3)
  end.

Definition opt_text (o : option str) : str :=
  match o with
  | Some t => t
  | None => []
  end.

(** The number branch of [_scan_once]. *)
Definition scan_number (s : str) : option (json * str) :=
  match match_number s with
  | None => None
  | Some (neg, int_ds, frac, exp, rest) =>
    match frac, exp with
    | None, None => Some (JInt (parse_int neg int_ds), rest)
    | _, _ =>
      Some (JFloat ((if neg then [45] else []) ++ int_ds
                    ++ opt_text frac ++ opt_text exp), rest)
    end
  end.

(** [s] starts with the text [w]: what follows it. *)
Fixpoint strip_prefix (w s : str) : option str :=
  match w, s with
  | [], _ => Some s
  | a :: w', b :: s' => if a =? b then strip_prefix w' s' else None
  | _ :: _, [] => None
  end.

(** [_scan_once], [JSONObject] and [JSONArray].  The three call each
    other; [fuel] bounds the nesting of these calls and is spent by one
    at each call.  [JSONObject_pairs] is entered after the opening quote
    of a key, [JSONArray_items] at the start of a value.  The constants
    [NaN], [Infinity] and [-Infinity], which Python reads although they
    are not JSON, are refused. *)
Fixpoint scan_once (fuel : nat) (s : str) {struct fuel}
  : option (json * str) :=
  match fuel with
  | O => None
  | S fuel' =>
    match s with
    | [] => None
    | c :: t =>
      if c =? 34 then
        match py_scanstring t with
        | Some (v, rest) => Some (JStr v, rest)
        | None => None
        end
      else if c =? 123 then
        match skip_ws t with
        | c1 :: t1 =>
          if c1 =? 125 then Some (JObj [], t1)
          else if c1 =? 34 then
            match JSONObject_pairs fuel' t1 with
            | Some (pairs, rest) => Some (JObj pairs, rest)
            | None => None
            end
          else None
        | [] => None
        end
      else if c =? 91 then
        match skip_ws t with
        | c1 :: t1 =>
          if c1 =? 93 then Some (JArr [], t1)
          else
            match JSONArray_items fuel' (c1 :: t1) with
            | Some (values, rest) => Some (JArr values, rest)
            | None => None
            end
        | [] => None
        end
      else if c =? 110 then
        match strip_prefix (lit "ull") t with
        | Some rest => Some (JNull, rest)
        | None => None
        end
      else if c =? 116 then
        match strip_prefix (lit "rue") t with
        | Some rest => Some (JBool true, rest)
        | None => None
        end
      else if c =? 102 then
        match strip_prefix (lit "alse") t with
        | Some rest => Some (JBool false, rest)
        | None => None
        end
      else scan_number s
    end
  end

with JSONObject_pairs (fuel : nat) (s : str) {struct fuel}
  : option (list (str * json) * str) :=
  match fuel with
  | O => None
  | S fuel' =>
    match py_scanstring s with
    | None => None
    | Some (key, s1) =>
      match skip_ws s1 with
      | colon :: s2 =>
        if colon =? 58 then
          match scan_once fuel' (skip_ws s2) with
          | None => None
          | Some (value, s3) =>
            match skip_ws s3 with
            | nextchar :: s4 =>
              if nextchar =? 125 then Some ([(key, value)], s4)
              else if nextchar =? 44 then
                match skip_ws s4 with
                | q :: s5 =>
                  if q =? 34 then
                    match JSONObject_pairs fuel' s5 with
                    | Some (pairs, rest) => Some ((key, value) :: pairs, rest)
                    | None => None
                    end
                  else None
                | [] => None
                end
              else None
            | [] => None
            end
          end
        else None
      | [] => None
      end
    end
  end

with JSONArray_items (fuel : nat) (s : str) {struct fuel}
  : option (list json * str) :=
  match fuel with
  | O => None
  | S fuel' =>
    match scan_once fuel' s with
    | None => None
    | Some (value, s1) =>
      match skip_ws s1 with
      | nextchar :: s2 =>
        if nextchar =? 93 then Some ([value], s2)
        else if nextchar =? 44 then
          match JSONArray_items fuel' (skip_ws s2) with
          | Some (values, rest) => Some (value :: values, rest)
          | None => None
          end
        else None
      | [] => None
      end
    end
  end.

(** [JSONDecoder.decode]: one value, white space around it, and nothing
    else.  No text nests deeper than it is long, so its length is fuel
    enough. *)
Definition JSONDecoder_decode (s : str) : option json :=
  match scan_once (S (List.length s)) (skip_ws s) with
  | Some (v, rest) =>
    match skip_ws rest with
    | [] => Some v
    | _ :: _ => None
    end
  | None => None
  end.

(** [json.loads] of a [bytes] payload in UTF-8. *)
Definition loads (b : bytes) : option json :=
  match bytes_decode_utf8 b with
  | Some text => JSONDecoder_decode text
  | None => None
  end.

End Json.

(* ================================================================== *)
(** * Vocabulary for texts *)
(* ================================================================== *)

Module Text.
Import Py Json.
Local Open Scope N_scope.

(** A Unicode scalar value: a code point that is not a surrogate. *)
Definition is_scalar (c : N) : bool :=
  (c <? 0x110000) && negb ((0xd800 <=? c) && (c <=? 0xdfff)).

(** Unicode text: a string of scalar values. *)
Definition unicode_text (s : str) : bool := forallb is_scalar s.

Definition is_ascii (c : N) : bool := c <? 128.

Definition ascii_text (s : str) : bool := forallb is_ascii s.

(** What the scanner reads back for one character written by
    [escape_char]; it is the character itself for every code point
    (those below [0x110000]). *)
Definition reread_char (c : N) : N :=
  if c <? 0x10000 then c
  else
    let n := c - 0x10000 in
    join_surrogates (N.lor 0xd800 (N.land (N.shiftr n 10) 0x3ff))
                    (N.lor 0xdc00 (N.land n 0x3ff)).

(** What the scanner reads back for a string written by
    [py_encode_basestring_ascii]: a high surrogate followed by a low one
    comes back as the single character the pair stands for. *)
Fixpoint reread (s : str) : str :=
  match s with
  | [] => []
  | c :: t =>
    match t with
    | l :: t' =>
      if is_high_surrogate c && is_low_surrogate l
      then join_surrogates c l :: reread t'
      else reread_char c :: reread t
    | [] => [reread_char c]
    end
  end.

(** The text [float.__repr__] prints for a finite float: a number of
    JSON with a fraction or an exponent, and nothing after it. *)
Definition finite_float_repr (r : str) : bool :=
  match match_number r with
  | Some (_, _, frac, exp, []) =>
    match frac, exp with
    | None, None => false
    | _, _ => true
    end
  | _ => false
  end.

(** The text that follows a value inside a JSON text: nothing, a comma,
    or a closing bracket or brace. *)
Definition closes (rest : str) : bool :=
  match rest with
  | [] => true
  | c :: _ => (c =? 44) || (c =? 93) || (c =? 125)
  end.

(** A value that JSON can represent, or a date and time: no object of
    another class, and no float that is infinite or not a number. *)
Fixpoint representable (o : obj) : bool :=
  match o with
  | PyNone | PyBool _ | PyInt _ | PyStr _ | PyDatetime _ => true
  | PyFloat r => finite_float_repr r
  | PyList l => forallb representable l
  | PyDict d => forallb (fun kv => representable (snd kv)) d
  | PyOther _ => false
  end.

Section Decoded.

Variable _default : obj -> result str.

(** The value that is read back from the text [_iterencode] writes for
    an object, when the [default] hook is [_default]. *)
Fixpoint decoded (o : obj) : json :=
  match o with
  | PyNone => JNull
  | PyBool b => JBool b
  | PyInt z => JInt z
  | PyFloat r => JFloat r
  | PyStr s => JStr (reread s)
  | PyList l => JArr (map decoded l)
  | PyDict d => JObj (map (fun kv => (reread (fst kv), decoded (snd kv))) d)
  | PyDatetime _ | PyOther _ =>
    match _default o with
    | Ok s => JStr (reread s)
    | Raise _ => JNull
    end
  end.

End Decoded.

(** The head of a number: a minus sign or a digit. *)
Definition number_head (s : str) : bool :=
  match s with
  | c :: _ => (c =? 45) || is_digit c
  | [] => false
  end.

(** The text starts with a backslash and the letter u. *)
Definition starts_u (s : str) : bool :=
  match s with
  | b :: u :: _ => (b =? 92) && (u =? 117)
  | _ => false
  end.

End Text.

(* ================================================================== *)
(** * The hub: states, events, entity filters *)
(* ================================================================== *)

Module Hass.
Import Py.

(** Modelled from the spec: the constants of [homeassistant.const] that
    the source imports.  The two sentinel state values are spelled as the
    spec spells them; the two event types are only ever compared with
    themselves. *)
Definition STATE_UNKNOWN : str := lit "unknown".
Definition STATE_UNAVAILABLE : str := lit "unavailable".
Definition EVENT_STATE_CHANGED : str := lit "state_changed".
Definition EVENT_HOMEASSISTANT_STOP : str := lit "homeassistant_stop".

(** [EntityFilter]: a callable from an entity identifier to [bool]. *)
Definition EntityFilter := str -> bool.

(** The State Record of the hub. *)
Record State := {
  entity_id : str;
  state : str;
  attributes : list (str * obj);
  last_changed : datetime;
  last_updated : datetime
}.

(** Modelled from the spec: [State.as_dict] belongs to the hub, not to
    this repository.  The payload has the fields entity identifier, state
    string, attribute mapping, and last-changed and last-updated as
    ISO-8601 strings; the attribute values are passed on as they are. *)
Definition as_dict (s : State) : obj :=
  PyDict [ (lit "entity_id", PyStr (entity_id s));
           (lit "state", PyStr (state s));
           (lit "attributes", PyDict (attributes s));
           (lit "last_changed", PyStr (isoformat (last_changed s)));
           (lit "last_updated", PyStr (isoformat (last_updated s))) ].

(** [EventStateChangedData] and the event that carries it. *)
Record EventStateChangedData := {
  data_entity_id : str;
  old_state : option State;
  new_state : option State
}.

Record Event := {
  event_type : str;
  data : EventStateChangedData
}.

End Hass.

(* ================================================================== *)
(** * The integration *)
(* ================================================================== *)

Module DateTimeJSONEncoder.
Import Py Json.

(** [DateTimeJSONEncoder.default]. *)
Definition default (o : obj) : result str :=
  match o with
  | PyDatetime d => Ok (isoformat d)
  | _ => JSONEncoder_default o
  end.

(** [DateTimeJSONEncoder.encode], inherited from [JSONEncoder]. *)
Definition encode (o : obj) : result str := JSONEncoder_encode default o.

End DateTimeJSONEncoder.

Module KafkaManager.
Import Py Json Hass.

(** An entry of [conf[CONF_TOPICS]], as [TOPIC_SCHEMA] validates it. *)
Record TopicAndFilters := {
  topic : str;
  filter : EntityFilter
}.

(** The arguments [AIOKafkaProducer] is constructed with. *)
Record AIOKafkaProducer := {
  bootstrap_servers : str;
  compression_type : str;
  security_protocol : str;
  sasl_mechanism : str;
  sasl_plain_username : option str;
  sasl_plain_password : option str
}.

(** The attributes of a manager.  ([_encoder] has no state of its own and
    [_hass] is the world below.) *)
Record t := {
  _entities_filter : EntityFilter;
  _producer : AIOKafkaProducer;
  _topics : list TopicAndFilters
}.

(** [KafkaManager.__init__]. *)
Definition __init__ (ip_address : str) (port : Z)
    (topics : list TopicAndFilters) (entities_filter : EntityFilter)
    (protocol : str) (username password : option str) : t :=
  {| _entities_filter := entities_filter;
     _producer :=
       {| bootstrap_servers := ip_address ++ lit ":" ++ int_repr port;
          compression_type := lit "gzip";
          security_protocol := protocol;
          sasl_mechanism := lit "PLAIN";
          sasl_plain_username := username;
          sasl_plain_password := password |};
     _topics := topics |}.

(** [x in (a, b, c)] on strings.  (The empty string is [[]].) *)
Definition str_in (x : str) (l : list str) : bool :=
  existsb (str_eqb x) l.

(** [KafkaManager._encode_event]: [Ok None] is the skip. *)
Definition _encode_event (self : t) (event : Event)
    (topic_entities_filter : EntityFilter) : result (option bytes) :=
  match new_state (data event) with
  | None => Ok None
  | Some new =>
    if str_in (state new) [STATE_UNKNOWN; []; STATE_UNAVAILABLE]
       || negb (_entities_filter self (entity_id new))
       || negb (topic_entities_filter (entity_id new))
    then Ok None
    else
      rbind (dumps (as_dict new) DateTimeJSONEncoder.encode) (fun text =>
      rbind (str_encode_utf8 text) (fun payload =>
      Ok (Some payload)))
  end.

(** ** The world around the manager *)

(** The bound methods that are handed to the event bus. *)
Inductive Handler := HWrite | HShutdown.

(** The coroutines of the producer that the manager awaits. *)
Inductive Call :=
| ProducerStart
| ProducerStop
| SendAndWait (topic : str) (payload : bytes).

(** What an observer of the bus and of the broker connection sees.
    [Evaluate] is a ghost mark: the loop of [write] takes up the route of
    this topic. *)
Inductive Effect :=
| Listen (event_type : str) (h : Handler)
| ListenOnce (event_type : str) (h : Handler)
| Invoke (c : Call)
| Returned
| Raised (e : exn)
| Evaluate (topic : str).

(** The effects so far, oldest first, and the answers of the broker
    connection to the awaited calls still to come, next first: [None]
    when the call completes, [Some e] when it raises [e].  A connection
    whose answers are used up completes every call. *)
Record World := {
  log : list Effect;
  answers : list (option exn)
}.

(** A method runs on the manager it is bound to and on the world. *)
Record Sys := {
  self : t;
  world : World
}.

Definition M (A : Type) := Sys -> result A * Sys.

Definition ret {A} (a : A) : M A := fun s => (Ok a, s).

Definition bind {A B} (m : M A) (k : A -> M B) : M B :=
  fun s =>
    match m s with
    | (Ok a, s') => k a s'
    | (Raise e, s') => (Raise e, s')
    end.

Notation "x <- m ;; k" := (bind m (fun x => k))
  (at level 61, m at next level, right associativity).
Notation "m ;; k" := (bind m (fun _ => k))
  (at level 61, right associativity).

Definition get_self : M t := fun s => (Ok (self s), s).

(** A result computed without effects, raised into the method. *)
Definition lift {A} (r : result A) : M A := fun s => (r, s).

Definition emit (e : Effect) : M unit :=
  fun s =>
    (Ok tt,
     {| self := self s;
        world := {| log := log (world s) ++ [e];
                    answers := answers (world s) |} |}).

(** [await c]: the call is made and the method resumes when the
    connection has answered. *)
Definition await (c : Call) : M unit :=
  fun s =>
    let w := world s in
    match answers w with
    | Some e :: rest =>
      (Raise e,
       {| self := self s;
          world := {| log := log w ++ [Invoke c; Raised e];
                      answers := rest |} |})
    | None :: rest =>
      (Ok tt,
       {| self := self s;
          world := {| log := log w ++ [Invoke c; Returned];
                      answers := rest |} |})
    | [] =>
      (Ok tt,
       {| self := self s;
          world := {| log := log w ++ [Invoke c; Returned];
                      answers := [] |} |})
    end.

(** ** The methods *)

(** [KafkaManager.start]. *)
Definition start : M unit :=
  emit (Listen EVENT_STATE_CHANGED HWrite) ;;
  await ProducerStart.

(** [KafkaManager.shutdown]. *)
Definition shutdown (_ : Event) : M unit :=
  await ProducerStop.

(** The truth value of [payload] in [if payload:]. *)
Definition truthy (payload : option bytes) : bool :=
  match payload with
  | Some (_ :: _) => true
  | _ => false
  end.

(** The body of the [for] loop of [write], over the routes still to be
    taken. *)
Fixpoint write_loop (event : Event) (topics : list TopicAndFilters)
  : M unit :=
  match topics with
  | [] => ret tt
  | topic_and_filters :: rest =>
    emit (Evaluate (topic topic_and_filters)) ;;
    me <- get_self ;;
    payload <- lift (_encode_event me event (filter topic_and_filters)) ;;
    match payload with
    | Some p =>
      if truthy payload
      then await (SendAndWait (topic topic_and_filters) p)
      else ret tt
    | None => ret tt
    end ;;
    write_loop event rest
  end.

(** [KafkaManager.write]. *)
Definition write (event : Event) : M unit :=
  me <- get_self ;;
  write_loop event (_topics me).

End KafkaManager.

(** [conf[DOMAIN]], as [CONFIG_SCHEMA] validates it. *)
Record Conf := {
  CONF_IP_ADDRESS : Py.str;
  CONF_PORT : Z;
  CONF_TOPICS : list KafkaManager.TopicAndFilters;
  CONF_FILTER : Hass.EntityFilter;
  CONF_SECURITY_PROTOCOL : Py.str;
  CONF_USERNAME : option Py.str;
  CONF_PASSWORD : option Py.str
}.

(** [async_setup]: the manager is built from the configuration, its
    [shutdown] is bound to the stop event of the hub, and it is started. *)
Definition async_setup (conf : Conf) (w : KafkaManager.World)
  : Py.result bool * KafkaManager.Sys :=
  let kafka :=
    KafkaManager.__init__ (CONF_IP_ADDRESS conf) (CONF_PORT conf)
      (CONF_TOPICS conf) (CONF_FILTER conf) (CONF_SECURITY_PROTOCOL conf)
      (CONF_USERNAME conf) (CONF_PASSWORD conf) in
  KafkaManager.bind
    (KafkaManager.emit
       (KafkaManager.ListenOnce Hass.EVENT_HOMEASSISTANT_STOP
          KafkaManager.HShutdown))
    (fun _ => KafkaManager.bind KafkaManager.start
    (fun _ => KafkaManager.ret true))
    {| KafkaManager.self := kafka; KafkaManager.world := w |}.

(* ================================================================== *)
(** * Vocabulary for the manager *)
(* ================================================================== *)

Module Observe.
Import Py Json Text Hass KafkaManager.

(** The event passes the skip conditions for a route: its new state is
    present, the state value is none of the empty string, [unknown] and
    [unavailable], and the entity identifier passes the global filter and
    the filter of the route. *)
Definition qualifies (self : t) (event : Event) (route : TopicAndFilters)
  : bool :=
  match new_state (data event) with
  | None => false
  | Some new =>
    negb (str_eqb (state new) []
          || str_eqb (state new) STATE_UNKNOWN
          || str_eqb (state new) STATE_UNAVAILABLE)
    && _entities_filter self (entity_id new)
    && filter route (entity_id new)
  end.

(** The payload of a state: its dictionary, dumped and encoded. *)
Definition payload_of (new : State) : result bytes :=
  rbind (dumps (as_dict new) DateTimeJSONEncoder.encode) str_encode_utf8.

(** The send calls among some effects, in order. *)
Fixpoint sends (effects : list Effect) : list (str * bytes) :=
  match effects with
  | [] => []
  | Invoke (SendAndWait topic payload) :: rest => (topic, payload) :: sends rest
  | _ :: rest => sends rest
  end.

(** The topics of the routes taken up among some effects, in order. *)
Fixpoint evaluated (effects : list Effect) : list str :=
  match effects with
  | [] => []
  | Evaluate topic :: rest => topic :: evaluated rest
  | _ :: rest => evaluated rest
  end.

(** How often the connection's [stop], its [start] and the registration
    of a listener occur among some effects. *)
Fixpoint stops (effects : list Effect) : nat :=
  match effects with
  | [] => 0
  | Invoke ProducerStop :: rest => S (stops rest)
  | _ :: rest => stops rest
  end.

Fixpoint starts (effects : list Effect) : nat :=
  match effects with
  | [] => 0
  | Invoke ProducerStart :: rest => S (starts rest)
  | _ :: rest => starts rest
  end.

Fixpoint listens (effects : list Effect) : nat :=
  match effects with
  | [] => 0
  | Listen _ _ :: rest => S (listens rest)
  | _ :: rest => listens rest
  end.

(** The effects of one route of [write] when the event has the payload
    [p] and the send, if there is one, is acknowledged. *)
Definition route_effects (self : t) (event : Event) (p : bytes)
    (route : TopicAndFilters) : list Effect :=
  Evaluate (topic route)
  :: (if qualifies self event route
      then [Invoke (SendAndWait (topic route) p); Returned]
      else []).

(** The first [n] answers of the connection are acknowledgments. *)
Fixpoint acknowledges (n : nat) (answers : list (option exn)) : bool :=
  match n, answers with
  | O, _ => true
  | S _, [] => true
  | S n', None :: rest => acknowledges n' rest
  | S _, Some _ :: _ => false
  end.

(** The outcome of the loop of [write] over some routes, told without
    the world: the result, the effects in order, and the answers the
    connection has left. *)
Fixpoint write_trace (self : t) (event : Event)
    (topics : list TopicAndFilters) (a : list (option exn))
  : result unit * list Effect * list (option exn) :=
  match topics with
  | [] => (Ok tt, [], a)
  | route :: rest =>
    let mark := Evaluate (topic route) in
    match _encode_event self event (filter route) with
    | Raise x => (Raise x, [mark], a)
    | Ok payload =>
      match payload with
      | Some p =>
        if truthy payload then
          match a with
          | Some e :: a' =>
            (Raise e,
             [mark; Invoke (SendAndWait (topic route) p); Raised e], a')
          | _ =>
            let '(r, eff, a') := write_trace self event rest (tl a) in
            (r,
             mark :: Invoke (SendAndWait (topic route) p) :: Returned :: eff,
             a')
          end
        else
          let '(r, eff, a') := write_trace self event rest a in
          (r, mark :: eff, a')
      | None =>
        let '(r, eff, a') := write_trace self event rest a in
        (r, mark :: eff, a')
      end
    end
  end.

(** The routes an event qualifies for, in the order of the table. *)
Definition qualifying (self : t) (event : Event)
    (topics : list TopicAndFilters) : list TopicAndFilters :=
  List.filter (qualifies self event) topics.

(** The calls that the hub and the process make on a manager. *)
Inductive Op :=
| OpStart
| OpWrite (event : Event)
| OpShutdown (event : Event).

Definition run_op (op : Op) : M unit :=
  match op with
  | OpStart => start
  | OpWrite event => write event
  | OpShutdown event => shutdown event
  end.

(** The calls made one after the other, each to its end; a call that
    raises does not keep the later ones from being made. *)
Fixpoint run_ops (ops : list Op) (s : Sys) : list (result unit) * Sys :=
  match ops with
  | [] => ([], s)
  | op :: ops' =>
    let (r, s') := run_op op s in
    let (rs, s'') := run_ops ops' s' in
    (r :: rs, s'')
  end.

End Observe.

(* ================================================================== *)
(** * A small installation *)
(* ================================================================== *)

(** The scenario of the spec: two topics, the second of which leaves out
    [light.x]; no global filter; an event for [light.x] with state [on]. *)
Module Scenario.
Import Py Json Hass KafkaManager Observe.

Definition noon : datetime :=
  {| year := 2024; month := 1; day := 2;
     hour := 12; minute := 0; second := 0; microsecond := 0;
     utcoffset := Some 0%Z |}.

Definition light_on : State :=
  {| entity_id := lit "light.x";
     state := lit "on";
     attributes := [(lit "since", PyDatetime noon)];
     last_changed := noon;
     last_updated := noon |}.

Definition changed : Event :=
  {| event_type := EVENT_STATE_CHANGED;
     data := {| data_entity_id := lit "light.x";
                old_state := None;
                new_state := Some light_on |} |}.

Definition stop_event : Event :=
  {| event_type := EVENT_HOMEASSISTANT_STOP;
     data := {| data_entity_id := [];
                old_state := None;
                new_state := None |} |}.

Definition everything : EntityFilter := fun _ => true.

Definition all_but_light_x : EntityFilter :=
  fun e => negb (str_eqb e (lit "light.x")).

Definition t1 : TopicAndFilters :=
  {| topic := lit "t1"; filter := everything |}.

Definition t2 : TopicAndFilters :=
  {| topic := lit "t2"; filter := all_but_light_x |}.

Definition t3 : TopicAndFilters :=
  {| topic := lit "t3"; filter := everything |}.

(** The manager of the scenario, and one with two topics that both take
    every entity. *)
Definition manager : t :=
  __init__ (lit "broker") 9092 [t1; t2] everything (lit "PLAINTEXT")
           None None.

Definition fanout : t :=
  __init__ (lit "broker") 9092 [t1; t3] everything (lit "PLAINTEXT")
           None None.

(** The same routes and filters behind another broker address. *)
Definition fanout' : t :=
  __init__ (lit "other") 9093 [t1; t3] everything (lit "SASL_SSL")
           (Some (lit "user")) (Some (lit "secret")).

(** A connection that completes every call, and one whose first call
    fails. *)
Definition quiet : World := {| log := []; answers := [] |}.

Definition failing : World := {| log := []; answers := [Some KafkaError] |}.

(** The payload of the event of the scenario. *)
Definition payload : bytes :=
  match payload_of light_on with
  | Ok p => p
  | Raise _ => []
  end.

End Scenario.

(* ================================================================== *)
(** * Vocabulary for the rest of the code *)
(* ================================================================== *)

Module Further.
Import Py Json Text Hass KafkaManager Observe.
Local Open Scope N_scope.

(** An object of a class the encoder does not know occurs in the object,
    at any depth. *)
Fixpoint contains_other (o : obj) : bool :=
  match o with
  | PyOther _ => true
  | PyList l => existsb contains_other l
  | PyDict d => existsb (fun kv => contains_other (snd kv)) d
  | _ => false
  end.

(** Every string of the object, keys included, is Unicode text. *)
Fixpoint text_ok (o : obj) : bool :=
  match o with
  | PyStr s => unicode_text s
  | PyList l => forallb text_ok l
  | PyDict d => forallb (fun kv => unicode_text (fst kv) && text_ok (snd kv)) d
  | _ => true
  end.

Section ToJson.

(** The text a date and time is to be read back as. *)
Variable render : datetime -> str.

(** The JSON value of an object, each date and time standing as the
    string [render] gives for it. *)
Fixpoint to_json (o : obj) : json :=
  match o with
  | PyNone => JNull
  | PyBool b => JBool b
  | PyInt z => JInt z
  | PyFloat r => JFloat r
  | PyStr s => JStr s
  | PyList l => JArr (map to_json l)
  | PyDict d => JObj (map (fun kv => (fst kv, to_json (snd kv))) d)
  | PyDatetime d => JStr (render d)
  | PyOther _ => JNull
  end.

End ToJson.

(** The interpreter refuses to print an integer of more than 4300
    decimal digits ([sys.int_info.default_max_str_digits]); [int_repr]
    prints every integer.  Every integer of the object is within that
    limit. *)
Definition MAX_STR_DIGITS : Z := 4300%Z.

Fixpoint ints_printable (o : obj) : bool :=
  match o with
  | PyInt z => (Z.abs z <? 10 ^ MAX_STR_DIGITS)%Z
  | PyList l => forallb ints_printable l
  | PyDict d => forallb (fun kv => ints_printable (snd kv)) d
  | _ => true
  end.

(** How deep the lists and dictionaries of an object are nested. *)
Fixpoint depth (o : obj) : nat :=
  match o with
  | PyList l => S (fold_right (fun x m => Nat.max (depth x) m) O l)
  | PyDict d => S (fold_right (fun kv m => Nat.max (depth (snd kv)) m) O d)
  | _ => O
  end.

(** The object stays within what the interpreter encodes without
    running into a limit of its own: its integers can be printed, and
    it is nested no deeper than a hundred levels, well inside the
    recursion limit. *)
Definition within_limits (o : obj) : bool :=
  ints_printable o && (depth o <=? 100)%nat.

(** The ISO-8601 text of a date and time between two quote characters. *)
Definition quoted_isoformat (d : datetime) : str :=
  34 :: isoformat d ++ [34].

(** Every octet is below [0x80]. *)
Definition ascii_bytes (p : bytes) : bool :=
  forallb (fun b => Byte.to_N b <? 128) p.

(** The calls on the connection among some effects. *)
Fixpoint invokes (effects : list Effect) : nat :=
  match effects with
  | [] => 0
  | Invoke _ :: rest => S (invokes rest)
  | _ :: rest => invokes rest
  end.

(** The registrations that are to fire once, among some effects. *)
Fixpoint listens_once (effects : list Effect) : nat :=
  match effects with
  | [] => 0
  | ListenOnce _ _ :: rest => S (listens_once rest)
  | _ :: rest => listens_once rest
  end.

(** The event passes the guard of [_encode_event] for the filter [f]. *)
Definition passes (self : t) (new : State) (f : EntityFilter) : bool :=
  negb (str_eqb (state new) []
        || str_eqb (state new) STATE_UNKNOWN
        || str_eqb (state new) STATE_UNAVAILABLE)
  && _entities_filter self (entity_id new)
  && f (entity_id new).

(** The manager [async_setup] builds from a configuration. *)
Definition manager_of (conf : Conf) : t :=
  __init__ (CONF_IP_ADDRESS conf) (CONF_PORT conf) (CONF_TOPICS conf)
           (CONF_FILTER conf) (CONF_SECURITY_PROTOCOL conf)
           (CONF_USERNAME conf) (CONF_PASSWORD conf).

(** The routes of a table up to the first one the event qualifies for,
    that one included. *)
Fixpoint through_first (q : TopicAndFilters -> bool)
    (topics : list TopicAndFilters) : list TopicAndFilters :=
  match topics with
  | [] => []
  | route :: rest => route :: (if q route then [] else through_first q rest)
  end.

(** What [async_setup] adds to the effects before the connection has
    answered its [start]. *)
Definition setup_effects : list Effect :=
  [ListenOnce EVENT_HOMEASSISTANT_STOP HShutdown;
   Listen EVENT_STATE_CHANGED HWrite;
   Invoke ProducerStart].

(** ** More events *)

(** A state whose value and whose attribute hold characters outside
    ASCII, one of them outside the Basic Multilingual Plane. *)
Definition smiling : State :=
  {| entity_id := lit "sensor.mood";
     state := [233; 128512];
     attributes := [(lit "note", PyStr [8364])];
     last_changed := Scenario.noon;
     last_updated := Scenario.noon |}.

Definition smiled : Event :=
  {| event_type := EVENT_STATE_CHANGED;
     data := {| data_entity_id := lit "sensor.mood";
                old_state := None;
                new_state := Some smiling |} |}.

(** A state one of whose attributes holds a set, inside a list. *)
Definition tagged : State :=
  {| entity_id := lit "light.x";
     state := lit "on";
     attributes := [(lit "tags", PyList [PyInt 1; PyOther (lit "set")])];
     last_changed := Scenario.noon;
     last_updated := Scenario.noon |}.

Definition tagged_event : Event :=
  {| event_type := EVENT_STATE_CHANGED;
     data := {| data_entity_id := lit "light.x";
                old_state := None;
                new_state := Some tagged |} |}.

(** The entity of the scenario has gone away. *)
Definition gone : Event :=
  {| event_type := EVENT_STATE_CHANGED;
     data := {| data_entity_id := lit "light.x";
                old_state := Some Scenario.light_on;
                new_state :=
                  Some {| entity_id := lit "light.x";
                          state := STATE_UNAVAILABLE;
                          attributes := [];
                          last_changed := Scenario.noon;
                          last_updated := Scenario.noon |} |} |}.

(** The configuration of the scenario. *)
Definition scenario_conf : Conf :=
  {| CONF_IP_ADDRESS := lit "broker"; CONF_PORT := 9092;
     CONF_TOPICS := [Scenario.t1; Scenario.t2];
     CONF_FILTER := Scenario.everything;
     CONF_SECURITY_PROTOCOL := lit "PLAINTEXT";
     CONF_USERNAME := None; CONF_PASSWORD := None |}.

End Further.

(* ================================================================== *)
(** * The hub while a coroutine is suspended *)
(* ================================================================== *)

Module Hub.
Import Py Hass KafkaManager Observe.

(** How often [write] is registered for state changes among some
    effects. *)
Fixpoint registrations (effects : list Effect) : nat :=
  match effects with
  | [] => 0
  | Listen event_type HWrite :: rest =>
    (if str_eqb event_type EVENT_STATE_CHANGED then 1 else 0)
    + registrations rest
  | _ :: rest => registrations rest
  end.

(** [write] invoked [n] times for an event, one invocation after the
    other.  What an invocation raises stays with the hub, which goes on
    to the next. *)
Fixpoint invoke_write (n : nat) (event : Event) (s : Sys) : Sys :=
  match n with
  | O => s
  | S n' => invoke_write n' event (snd (write event s))
  end.

(** The hub fires an event: when it is a state change, [write] is
    invoked once for each of its registrations made so far. *)
Definition fire (event : Event) (s : Sys) : Sys :=
  if str_eqb (event_type event) EVENT_STATE_CHANGED
  then invoke_write (registrations (log (world s))) event s
  else s.

(** [await c] in its two halves.  The call is made, and the coroutine
    is suspended; it resumes when the connection has answered. *)
Definition call (c : Call) : M unit := emit (Invoke c).

Definition resume : M unit :=
  fun s =>
    let w := world s in
    match answers w with
    | Some e :: rest =>
      (Raise e,
       {| self := self s;
          world := {| log := log w ++ [Raised e]; answers := rest |} |})
    | None :: rest =>
      (Ok tt,
       {| self := self s;
          world := {| log := log w ++ [Returned]; answers := rest |} |})
    | [] =>
      (Ok tt,
       {| self := self s;
          world := {| log := log w ++ [Returned]; answers := [] |} |})
    end.

(** What the hub does while a coroutine is suspended: it fires the
    events that arrive, in order. *)
Definition meanwhile (events : list Event) : M unit :=
  fun s => (Ok tt, fold_left (fun s' event => fire event s') events s).

(** [KafkaManager.start] up to its suspension on the start of the
    connection, with the events that arrive before the connection has
    answered. *)
Definition start_suspended (during : list Event) : M unit :=
  emit (Listen EVENT_STATE_CHANGED HWrite) ;;
  call ProducerStart ;;
  meanwhile during.

(** [KafkaManager.start], with the events that arrive while it is
    suspended. *)
Definition start_with (during : list Event) : M unit :=
  start_suspended during ;;
  resume.

End Hub.

(* ================================================================== *)
(** * Facts about strings: what is written is read back *)
(* ================================================================== *)

Module StrFacts.
Import Py Json Text.
Local Open Scope N_scope.

Ltac ncmp :=
  repeat match goal with
  | |- context [?a <? ?b] => destruct (N.ltb_spec a b)
  | |- context [?a <=? ?b] => destruct (N.leb_spec a b)
  | |- context [?a =? ?b] => destruct (N.eqb_spec a b)
  end; simpl; try lia.

Lemma str_eqb_eq a b : str_eqb a b = true <-> a = b.
Proof.
  revert b; induction a as [|x a IH]; intros [|y b]; simpl; split;
    try congruence; try reflexivity.
  - intros H. apply andb_true_iff in H as [H1 H2].
    apply N.eqb_eq in H1. apply IH in H2. congruence.
  - intros H. injection H as -> ->. rewrite N.eqb_refl. simpl.
    apply IH. reflexivity.
Qed.

Lemma hexval_hexdigit v : v < 16 -> hexval (hexdigit v) = Some v.
Proof.
  intros H. unfold hexval, hexdigit.
  destruct (N.ltb_spec v 10).
  - replace ((48 <=? 48 + v) && (48 + v <=? 57)) with true by (symmetry; ncmp).
    f_equal. lia.
  - replace ((48 <=? 87 + v) && (87 + v <=? 57)) with false by (symmetry; ncmp).
    replace ((97 <=? 87 + v) && (87 + v <=? 102)) with true by (symmetry; ncmp).
    f_equal. lia.
Qed.

Lemma decode_format_04x n :
  n < 0x10000 ->
  _decode_uXXXX (hexdigit ((n / 4096) mod 16)) (hexdigit ((n / 256) mod 16))
                (hexdigit ((n / 16) mod 16)) (hexdigit (n mod 16)) = Some n.
Proof.
  intros H. unfold _decode_uXXXX.
  rewrite !hexval_hexdigit by (apply N.mod_lt; lia).
  f_equal. zify. Z.to_euclidean_division_equations. lia.
Qed.

Lemma lor_shiftl_add a b k :
  b < 2 ^ k -> N.lor (N.shiftl a k) b = a * 2 ^ k + b.
Proof.
  intros H.
  rewrite <- N.lxor_lor, <- N.add_nocarry_lxor, N.shiftl_mul_pow2; trivial.
  all: apply N.bits_inj; intros m; rewrite N.land_spec, N.bits_0;
    destruct (N.lt_ge_cases m k) as [L|L].
  all: try (rewrite N.shiftl_spec_low by trivial; reflexivity).
  all: destruct (N.eq_dec b 0) as [->|nz];
    [rewrite N.bits_0; apply andb_false_r|].
  all: rewrite (N.bits_above_log2 b m); [apply andb_false_r|].
  all: apply N.log2_lt_pow2; [lia|]; eapply N.lt_le_trans; [eassumption|];
    apply N.pow_le_mono_r; lia.
Qed.

Lemma high_half n :
  N.lor 0xd800 (N.land (N.shiftr n 10) 0x3ff) = 0xd800 + (n / 1024) mod 1024.
Proof.
  change 0xd800 with (N.shiftl 54 10) at 1. change 0x3ff with (N.ones 10).
  rewrite N.land_ones, N.shiftr_div_pow2.
  rewrite lor_shiftl_add by (apply N.mod_lt; discriminate).
  reflexivity.
Qed.

Lemma low_half n :
  N.lor 0xdc00 (N.land n 0x3ff) = 0xdc00 + n mod 1024.
Proof.
  change 0xdc00 with (N.shiftl 55 10) at 1. change 0x3ff with (N.ones 10).
  rewrite N.land_ones.
  rewrite lor_shiftl_add by (apply N.mod_lt; discriminate).
  reflexivity.
Qed.

Lemma join_halves a b :
  a < 1024 -> b < 1024 ->
  join_surrogates (0xd800 + a) (0xdc00 + b) = 0x10000 + a * 1024 + b.
Proof.
  intros Ha Hb. unfold join_surrogates.
  replace (0xd800 + a - 0xd800) with a by lia.
  replace (0xdc00 + b - 0xdc00) with b by lia.
  rewrite lor_shiftl_add by exact Hb. change (2 ^ 10) with 1024. lia.
Qed.

Lemma reread_char_id c : c < 0x110000 -> reread_char c = c.
Proof.
  intros H. unfold reread_char. destruct (N.ltb_spec c 0x10000); trivial.
  rewrite high_half, low_half.
  rewrite join_halves by (apply N.mod_lt; discriminate).
  zify. Z.to_euclidean_division_equations. lia.
Qed.


(** ** The scanner, one character at a time *)

Lemma scan_plain c t :
  ESCAPE_ASCII c = false ->
  py_scanstring (c :: t) = push c (py_scanstring t).
Proof.
  unfold ESCAPE_ASCII. intros H.
  apply orb_false_iff in H as [H H3]. apply orb_false_iff in H as [H1 H2].
  apply negb_false_iff, andb_true_iff in H3 as [H3 _].
  cbn [py_scanstring]. rewrite H1, H2.
  apply N.leb_le in H3. destruct (N.ltb_spec c 32); [lia|reflexivity].
Qed.

Lemma scan_short e ch t :
  e <> 117 -> BACKSLASH e = Some ch ->
  py_scanstring (92 :: e :: t) = push ch (py_scanstring t).
Proof.
  intros He Hb. cbn [py_scanstring]. change (92 =? 34) with false.
  change (92 =? 92) with true. cbv iota.
  apply N.eqb_neq in He. rewrite He, Hb. reflexivity.
Qed.

Lemma scan_u_eq h3 h2 h1 h0 uni t2 :
  _decode_uXXXX h3 h2 h1 h0 = Some uni ->
  py_scanstring (92 :: 117 :: h3 :: h2 :: h1 :: h0 :: t2)
  = if is_high_surrogate uni then
      match t2 with
      | b :: u :: t3 =>
        if (b =? 92) && (u =? 117) then
          match t3 with
          | g3 :: g2 :: g1 :: g0 :: t4 =>
            match _decode_uXXXX g3 g2 g1 g0 with
            | None => None
            | Some uni2 =>
              if is_low_surrogate uni2
              then push (join_surrogates uni uni2) (py_scanstring t4)
              else push uni (py_scanstring t2)
            end
          | _ => None
          end
        else push uni (py_scanstring t2)
      | _ => push uni (py_scanstring t2)
      end
    else push uni (py_scanstring t2).
Proof.
  intros Hd. cbn [py_scanstring]. change (92 =? 34) with false.
  change (92 =? 92) with true. change (117 =? 117) with true. cbv iota.
  rewrite Hd. reflexivity.
Qed.

Lemma scan_u_single h3 h2 h1 h0 uni t2 :
  _decode_uXXXX h3 h2 h1 h0 = Some uni ->
  is_high_surrogate uni = false ->
  py_scanstring (92 :: 117 :: h3 :: h2 :: h1 :: h0 :: t2)
  = push uni (py_scanstring t2).
Proof.
  intros Hd Hh. rewrite (scan_u_eq _ _ _ _ _ _ Hd), Hh. reflexivity.
Qed.

Lemma scan_u_pair h3 h2 h1 h0 uni g3 g2 g1 g0 uni2 t4 :
  _decode_uXXXX h3 h2 h1 h0 = Some uni ->
  is_high_surrogate uni = true ->
  _decode_uXXXX g3 g2 g1 g0 = Some uni2 ->
  is_low_surrogate uni2 = true ->
  py_scanstring (92 :: 117 :: h3 :: h2 :: h1 :: h0
                 :: 92 :: 117 :: g3 :: g2 :: g1 :: g0 :: t4)
  = push (join_surrogates uni uni2) (py_scanstring t4).
Proof.
  intros Hd Hh Hd2 Hl. rewrite (scan_u_eq _ _ _ _ _ _ Hd), Hh.
  cbv beta iota. change ((92 =? 92) && (117 =? 117)) with true. cbv iota.
  rewrite Hd2, Hl. reflexivity.
Qed.

Lemma scan_u_unpaired h3 h2 h1 h0 uni g3 g2 g1 g0 uni2 t4 :
  _decode_uXXXX h3 h2 h1 h0 = Some uni ->
  _decode_uXXXX g3 g2 g1 g0 = Some uni2 ->
  is_low_surrogate uni2 = false ->
  py_scanstring (92 :: 117 :: h3 :: h2 :: h1 :: h0
                 :: 92 :: 117 :: g3 :: g2 :: g1 :: g0 :: t4)
  = push uni (py_scanstring (92 :: 117 :: g3 :: g2 :: g1 :: g0 :: t4)).
Proof.
  intros Hd Hd2 Hl. rewrite (scan_u_eq _ _ _ _ _ _ Hd).
  destruct (is_high_surrogate uni); trivial.
  cbv beta iota. change ((92 =? 92) && (117 =? 117)) with true. cbv iota.
  rewrite Hd2, Hl. reflexivity.
Qed.

Lemma scan_u_alone h3 h2 h1 h0 uni t2 :
  _decode_uXXXX h3 h2 h1 h0 = Some uni ->
  starts_u t2 = false ->
  py_scanstring (92 :: 117 :: h3 :: h2 :: h1 :: h0 :: t2)
  = push uni (py_scanstring t2).
Proof.
  intros Hd Hs. rewrite (scan_u_eq _ _ _ _ _ _ Hd).
  destruct (is_high_surrogate uni); trivial.
  destruct t2 as [|b [|u t3]]; trivial.
  simpl in Hs. rewrite Hs. reflexivity.
Qed.

(** ** What a written string reads back as *)

Lemma BACKSLASH_small e c : BACKSLASH e = Some c -> c < 128.
Proof.
  unfold BACKSLASH. intros H.
  repeat match type of H with
         | (if ?b then _ else _) = _ => destruct b
         end; inversion H; reflexivity.
Qed.

Lemma escape_char_cases c :
  (ESCAPE_ASCII c = false /\ escape_char c = [c]) \/
  (exists e, e <> 117 /\ BACKSLASH e = Some c /\ escape_char c = [92; e]) \/
  (c < 0x10000
   /\ escape_char c = 92 :: 117 :: format_04x c) \/
  (0x10000 <= c
   /\ escape_char c
      = (92 :: 117
            :: format_04x (0xd800 + ((c - 0x10000) / 1024) mod 1024))
        ++ 92 :: 117 :: format_04x (0xdc00 + (c - 0x10000) mod 1024)).
Proof.
  unfold escape_char. destruct (ESCAPE_ASCII c) eqn:E; [|left; auto].
  right. unfold replace, ESCAPE_DCT.
  destruct (N.eqb_spec c 92) as [->|_];
    [left; exists 92; repeat split; discriminate|].
  destruct (N.eqb_spec c 34) as [->|_];
    [left; exists 34; repeat split; discriminate|].
  destruct (N.eqb_spec c 8) as [->|_];
    [left; exists 98; repeat split; discriminate|].
  destruct (N.eqb_spec c 12) as [->|_];
    [left; exists 102; repeat split; discriminate|].
  destruct (N.eqb_spec c 10) as [->|_];
    [left; exists 110; repeat split; discriminate|].
  destruct (N.eqb_spec c 13) as [->|_];
    [left; exists 114; repeat split; discriminate|].
  destruct (N.eqb_spec c 9) as [->|_];
    [left; exists 116; repeat split; discriminate|].
  right. destruct (N.ltb_spec c 0x10000); [left; auto|].
  right. split; trivial. cbv zeta. rewrite high_half, low_half. reflexivity.
Qed.

Lemma high_is_high a : a < 1024 -> is_high_surrogate (0xd800 + a) = true.
Proof. intros H. unfold is_high_surrogate. ncmp. Qed.

Lemma high_not_low a : a < 1024 -> is_low_surrogate (0xd800 + a) = false.
Proof. intros H. unfold is_low_surrogate. ncmp. Qed.

Lemma low_is_low a : a < 1024 -> is_low_surrogate (0xdc00 + a) = true.
Proof. intros H. unfold is_low_surrogate. ncmp. Qed.

Lemma surrogate_escape c :
  is_high_surrogate c || is_low_surrogate c = true ->
  c < 0x10000 /\ escape_char c = 92 :: 117 :: format_04x c.
Proof.
  intros H.
  assert (R : 0xd800 <= c <= 0xdfff).
  { revert H. unfold is_high_surrogate, is_low_surrogate. ncmp; discriminate. }
  split; [lia|].
  destruct (escape_char_cases c) as [[E _]|[(e & _ & B & _)|[[_ E]|[L _]]]];
    trivial.
  - revert E. unfold ESCAPE_ASCII. ncmp; discriminate.
  - apply BACKSLASH_small in B. lia.
  - lia.
Qed.

(** After the escape of a character that is not a low surrogate, the
    scanner finds no second half of a pair. *)
Lemma scan_u_then_escape h3 h2 h1 h0 uni l Y :
  _decode_uXXXX h3 h2 h1 h0 = Some uni ->
  is_low_surrogate l = false ->
  py_scanstring (92 :: 117 :: h3 :: h2 :: h1 :: h0 :: escape_char l ++ Y)
  = push uni (py_scanstring (escape_char l ++ Y)).
Proof.
  intros Hd Hl.
  destruct (escape_char_cases l)
    as [[E ->]|[(e & Ne & B & ->)|[[L ->]|[L ->]]]].
  - apply scan_u_alone; trivial.
    assert (l <> 92).
    { intros ->. discriminate E. }
    cbn [app starts_u]. destruct Y; trivial.
    apply N.eqb_neq in H. rewrite H. reflexivity.
  - apply scan_u_alone; trivial. cbn [app starts_u].
    apply N.eqb_neq in Ne. rewrite Ne. apply andb_false_r.
  - unfold format_04x. cbn [app].
    apply scan_u_unpaired with (uni2 := l); trivial.
    apply decode_format_04x, L.
  - unfold format_04x. cbn [app].
    assert (A : ((l - 65536) / 1024) mod 1024 < 1024)
      by (apply N.mod_lt; discriminate).
    apply scan_u_unpaired
      with (uni2 := 0xd800 + ((l - 65536) / 1024) mod 1024); trivial.
    + apply decode_format_04x. lia.
    + apply high_not_low, A.
Qed.

Lemma reread_cons c t :
  is_high_surrogate c = false ->
  reread (c :: t) = reread_char c :: reread t.
Proof. intros H. cbn [reread]. rewrite H. destruct t; reflexivity. Qed.

Lemma reread_char_small c : c < 0x10000 -> reread_char c = c.
Proof. intros H. apply reread_char_id. lia. Qed.

Lemma plain_not_high c :
  ESCAPE_ASCII c = false -> c < 0x10000 /\ is_high_surrogate c = false.
Proof.
  unfold ESCAPE_ASCII, is_high_surrogate. intros H.
  assert (c <= 126) by (revert H; ncmp; discriminate).
  split; [lia|ncmp].
Qed.

Lemma scanstring_escaped_aux n :
  forall s rest, (List.length s <= n)%nat ->
  py_scanstring (flat_map escape_char s ++ 34 :: rest)
  = Some (reread s, rest).
Proof.
  induction n as [|n IH]; intros [|c t] rest Hn; try reflexivity.
  - simpl in Hn. lia.
  - simpl in Hn.
    assert (IHt : py_scanstring (flat_map escape_char t ++ 34 :: rest)
                  = Some (reread t, rest)) by (apply IH; lia).
    cbn [flat_map]. rewrite <- app_assoc.
    destruct (escape_char_cases c)
      as [[E ->]|[(e & Ne & B & ->)|[[L Ec]|[L ->]]]].
    + cbn [app]. rewrite scan_plain, IHt by trivial.
      destruct (plain_not_high c E) as [S H].
      rewrite reread_cons, reread_char_small by trivial. reflexivity.
    + cbn [app]. rewrite (scan_short _ _ _ Ne B), IHt.
      pose proof (BACKSLASH_small _ _ B) as S.
      rewrite reread_cons, reread_char_small; trivial; try lia.
      unfold is_high_surrogate. ncmp.
    + rewrite Ec. unfold format_04x. cbn [app].
      pose proof (decode_format_04x _ L) as Hd.
      destruct (is_high_surrogate c) eqn:Hh.
      * destruct t as [|l t'].
        { cbn [flat_map app].
          rewrite (scan_u_alone _ _ _ _ _ _ Hd) by (destruct rest; reflexivity).
          cbn [py_scanstring]. change (34 =? 34) with true. cbv iota.
          cbn [push reread]. rewrite reread_char_small by trivial.
          reflexivity. }
        destruct (is_low_surrogate l) eqn:Hl.
        { cbn [flat_map]. rewrite <- app_assoc.
          destruct (surrogate_escape l) as [Ll ->];
            [rewrite Hl; apply orb_true_r|].
          unfold format_04x. cbn [app].
          rewrite (scan_u_pair _ _ _ _ _ _ _ _ _ _ _ Hd Hh
                     (decode_format_04x _ Ll) Hl).
          rewrite IH by (simpl in Hn; lia).
          cbn [push reread]. rewrite Hh, Hl. reflexivity. }
        { cbn [flat_map]. rewrite <- app_assoc.
          rewrite (scan_u_then_escape _ _ _ _ _ _ _ Hd Hl).
          cbn [flat_map] in IHt. rewrite <- app_assoc in IHt. rewrite IHt.
          cbn [push reread]. rewrite Hh, Hl. cbn [andb].
          rewrite (reread_char_small _ L). reflexivity. }
      * rewrite (scan_u_single _ _ _ _ _ _ Hd Hh), IHt.
        rewrite reread_cons, reread_char_small by trivial. reflexivity.
    + unfold format_04x. cbn [app].
      assert (A : ((c - 65536) / 1024) mod 1024 < 1024)
        by (apply N.mod_lt; discriminate).
      assert (B : (c - 65536) mod 1024 < 1024)
        by (apply N.mod_lt; discriminate).
      erewrite scan_u_pair.
      2:{ apply decode_format_04x. lia. }
      2:{ apply high_is_high, A. }
      2:{ apply decode_format_04x. lia. }
      2:{ apply low_is_low, B. }
      rewrite IHt. cbn [push].
      rewrite reread_cons by (unfold is_high_surrogate; ncmp).
      unfold reread_char. destruct (N.ltb_spec c 0x10000); [lia|].
      cbv zeta. rewrite high_half, low_half. reflexivity.
Qed.

Lemma scanstring_escaped s rest :
  py_scanstring (flat_map escape_char s ++ 34 :: rest) = Some (reread s, rest).
Proof. apply (scanstring_escaped_aux (List.length s)). lia. Qed.

Lemma reread_unicode_text s : unicode_text s = true -> reread s = s.
Proof.
  induction s as [|c t IH]; trivial.
  cbn [unicode_text forallb]. intros H.
  apply andb_true_iff in H as [Hc Ht].
  assert (c < 0x110000 /\ is_high_surrogate c = false) as [L Hh].
  { revert Hc. unfold is_scalar, is_high_surrogate. ncmp; discriminate. }
  rewrite reread_cons, reread_char_id, (IH Ht); trivial.
Qed.

End StrFacts.

(* ================================================================== *)
(** * Facts about numbers *)
(* ================================================================== *)

Module NumFacts.
Import Py Json Text StrFacts.
Local Open Scope N_scope.

Lemma closes_head c rest :
  closes (c :: rest) = true -> c = 44 \/ c = 93 \/ c = 125.
Proof.
  cbn [closes]. intros H.
  apply orb_true_iff in H as [H|H]; [apply orb_true_iff in H as [H|H]|];
    apply N.eqb_eq in H; auto.
Qed.

Ltac closes_cases rest H :=
  let c := fresh "c" in
  let r := fresh "rest" in
  destruct rest as [|c r];
  [ | destruct (closes_head _ _ H) as [ -> | [ -> | -> ] ] ].

Lemma span_digits_app s rest :
  closes rest = true ->
  span_digits (s ++ rest)
  = (fst (span_digits s), snd (span_digits s) ++ rest).
Proof.
  intros H. induction s as [|c s IH].
  - closes_cases rest H; reflexivity.
  - cbn [app span_digits]. destruct (is_digit c); trivial.
    rewrite IH. destruct (span_digits s). reflexivity.
Qed.

Lemma take_integer_app s rest i r :
  closes rest = true ->
  take_integer s = Some (i, r) ->
  take_integer (s ++ rest) = Some (i, r ++ rest).
Proof.
  intros H. destruct s as [|d t]; [discriminate|].
  cbn [app take_integer]. destruct (is_digit d); [|discriminate].
  destruct (d =? 48).
  - intros E. inversion E. reflexivity.
  - rewrite (span_digits_app t _ H). destruct (span_digits t).
    intros E. inversion E. reflexivity.
Qed.

Lemma take_fraction_app s rest :
  closes rest = true ->
  take_fraction (s ++ rest)
  = (fst (take_fraction s), snd (take_fraction s) ++ rest).
Proof.
  intros H. destruct s as [|dot t].
  - closes_cases rest H; reflexivity.
  - cbn [app take_fraction]. destruct (dot =? 46); trivial.
    rewrite (span_digits_app t _ H).
    destruct (span_digits t) as [[|f fs] r]; reflexivity.
Qed.

Lemma take_exponent_app s rest :
  closes rest = true ->
  take_exponent (s ++ rest)
  = (fst (take_exponent s), snd (take_exponent s) ++ rest).
Proof.
  intros H. destruct s as [|e t].
  - closes_cases rest H; reflexivity.
  - cbn [app take_exponent]. destruct ((e =? 101) || (e =? 69)); trivial.
    destruct t as [|sg t'].
    + cbn [app]. closes_cases rest H; reflexivity.
    + cbn [app]. destruct ((sg =? 45) || (sg =? 43)).
      * rewrite (span_digits_app t' _ H).
        destruct (span_digits t') as [[|f fs] r]; reflexivity.
      * change (sg :: t' ++ rest) with ((sg :: t') ++ rest).
        rewrite (span_digits_app (sg :: t') _ H).
        destruct (span_digits (sg :: t')) as [[|f fs] r]; reflexivity.
Qed.

(** A number is matched the same way whatever closes it. *)
Lemma match_number_app s rest neg i f e r :
  closes rest = true ->
  match_number s = Some (neg, i, f, e, r) ->
  match_number (s ++ rest) = Some (neg, i, f, e, r ++ rest).
Proof.
  intros H. unfold match_number.
  assert (S : take_sign (s ++ rest)
              = (fst (take_sign s), snd (take_sign s) ++ rest)
              \/ s = []).
  { destruct s as [|c t]; [right; trivial|left].
    cbn [app take_sign]. destruct (c =? 45); reflexivity. }
  destruct S as [S| ->]; [|discriminate].
  rewrite S. destruct (take_sign s) as [neg0 s0]. cbn [fst snd].
  destruct (take_integer s0) as [[i0 s1]|] eqn:Ei; [|discriminate].
  rewrite (take_integer_app _ _ _ _ H Ei).
  rewrite (take_fraction_app s1 _ H).
  destruct (take_fraction s1) as [f0 s2]. cbn [fst snd].
  rewrite (take_exponent_app s2 _ H).
  destruct (take_exponent s2) as [e0 s3]. cbn [fst snd].
  intros E. inversion E. reflexivity.
Qed.

(** ** Integers *)

Lemma uint_of_chars_of_uint u : uint_of_chars (chars_of_uint u) = u.
Proof. induction u; cbn; congruence. Qed.

Lemma chars_of_uint_digits u : forallb is_digit (chars_of_uint u) = true.
Proof. induction u; cbn; trivial. Qed.

Lemma span_digits_all ds :
  forallb is_digit ds = true -> span_digits ds = (ds, []).
Proof.
  induction ds as [|c ds IH]; trivial. cbn [forallb span_digits].
  intros H. apply andb_true_iff in H as [-> H]. rewrite (IH H). reflexivity.
Qed.

(** The decimal text of a number has no leading zero. *)
Lemma to_uint_leading_zero n d : N.to_uint n = Decimal.D0 d -> d = Decimal.Nil.
Proof.
  intros E. pose proof (DecimalN.Unsigned.to_of (N.to_uint n)) as H.
  rewrite DecimalN.Unsigned.of_to, E, DecimalFacts.unorm_D0 in H.
  unfold Decimal.unorm in H.
  destruct (Decimal.nzhead d) eqn:Z; try discriminate;
    try (inversion H; subst; reflexivity).
  inversion H; subst. exfalso. eapply DecimalFacts.nzhead_nonzero, Z.
Qed.

Lemma to_uint_nonnil n : N.to_uint n <> Decimal.Nil.
Proof.
  intros E. pose proof (DecimalN.Unsigned.to_of (N.to_uint n)) as H.
  rewrite DecimalN.Unsigned.of_to, E in H. discriminate.
Qed.

Lemma match_number_repr_N n :
  match_number (repr_N n) = Some (false, repr_N n, None, None, []).
Proof.
  unfold repr_N. pose proof (chars_of_uint_digits (N.to_uint n)) as D.
  pose proof (to_uint_leading_zero n) as Z.
  pose proof (to_uint_nonnil n) as NZ.
  destruct (N.to_uint n) as [|u|u|u|u|u|u|u|u|u|u]; try congruence;
    try (rewrite (Z u eq_refl); reflexivity);
    cbn [chars_of_uint forallb] in *;
    unfold match_number; cbn [take_sign take_integer];
    change (_ =? 45) with false; cbv iota;
    apply andb_true_iff in D as [_ D];
    cbn; rewrite (span_digits_all _ D); reflexivity.
Qed.

Lemma parse_int_repr_N n : parse_int false (repr_N n) = Z.of_N n.
Proof.
  unfold parse_int, repr_N.
  rewrite uint_of_chars_of_uint, DecimalN.Unsigned.of_to. reflexivity.
Qed.

Lemma repr_N_head n : exists d ds, repr_N n = d :: ds /\ is_digit d = true.
Proof.
  unfold repr_N. pose proof (chars_of_uint_digits (N.to_uint n)) as D.
  pose proof (to_uint_nonnil n) as NZ.
  destruct (N.to_uint n); try congruence; cbn [chars_of_uint forallb] in *;
    eexists; eexists; split; reflexivity.
Qed.

Lemma scan_number_int z rest :
  closes rest = true ->
  scan_number (int_repr z ++ rest) = Some (JInt z, rest).
Proof.
  intros H. unfold scan_number.
  assert (E : match_number (int_repr z)
              = Some (match z with Zneg _ => true | _ => false end,
                      repr_N (Z.to_N (Z.abs z)), None, None, [])).
  { destruct z as [|p|p]; cbn [int_repr Z.abs Z.to_N];
      try apply match_number_repr_N.
    pose proof (match_number_repr_N (N.pos p)) as M.
    destruct (repr_N_head (N.pos p)) as (d & ds & E & D).
    unfold match_number in *. rewrite E in *. cbn [take_sign] in *.
    change (45 =? 45) with true. cbv iota.
    assert ((d =? 45) = false) as E45.
    { revert D. unfold is_digit. ncmp; discriminate. }
    rewrite E45 in M.
    destruct (take_integer (d :: ds)) as [[i s1]|]; [|discriminate].
    destruct (take_fraction s1) as [f0 s2].
    destruct (take_exponent s2) as [e0 s3].
    inversion M. reflexivity. }
  rewrite (match_number_app _ _ _ _ _ _ _ H E). cbn [app]. do 2 f_equal.
  destruct z as [|p|p]; cbn [Z.abs Z.to_N]; unfold parse_int at 1;
    fold (parse_int false (repr_N 0));
    try fold (parse_int false (repr_N (N.pos p)));
    rewrite parse_int_repr_N; reflexivity.
Qed.

(** ** The parts of a matched number *)

Lemma span_digits_split s :
  s = fst (span_digits s) ++ snd (span_digits s)
  /\ forallb is_digit (fst (span_digits s)) = true.
Proof.
  induction s as [|c s [IH1 IH2]]; [split; reflexivity|].
  cbn [span_digits]. destruct (is_digit c) eqn:D; [|split; reflexivity].
  destruct (span_digits s) as [ds r]. cbn [fst snd app forallb] in *.
  rewrite D, IH2. split; [congruence|reflexivity].
Qed.

Lemma digit_ascii c : is_digit c = true -> is_ascii c = true.
Proof. unfold is_digit, is_ascii. ncmp; discriminate. Qed.

Lemma digits_ascii ds : forallb is_digit ds = true -> ascii_text ds = true.
Proof.
  induction ds as [|c ds IH]; trivial. cbn [forallb ascii_text].
  intros H. apply andb_true_iff in H as [D H].
  rewrite (digit_ascii _ D). apply IH, H.
Qed.

Lemma ascii_text_app a b :
  ascii_text (a ++ b) = ascii_text a && ascii_text b.
Proof. apply forallb_app. Qed.

Lemma take_sign_split s :
  s = (if fst (take_sign s) then [45] else []) ++ snd (take_sign s).
Proof.
  destruct s as [|c t]; trivial. cbn [take_sign].
  destruct (N.eqb_spec c 45) as [->|_]; reflexivity.
Qed.

Lemma take_integer_split s i r :
  take_integer s = Some (i, r) -> s = i ++ r /\ ascii_text i = true.
Proof.
  destruct s as [|d t]; [discriminate|]. cbn [take_integer].
  destruct (is_digit d) eqn:D; [|discriminate].
  destruct (d =? 48).
  - intros E. inversion E. subst. split; trivial.
    cbn. rewrite (digit_ascii _ D). reflexivity.
  - destruct (span_digits_split t) as [S A].
    destruct (span_digits t) as [ds r']. cbn [fst snd] in *.
    intros E. inversion E. subst i r'. split; [rewrite S at 1; reflexivity|].
    cbn [ascii_text forallb]. rewrite (digit_ascii _ D).
    apply digits_ascii, A.
Qed.

Lemma take_fraction_split s :
  s = opt_text (fst (take_fraction s)) ++ snd (take_fraction s)
  /\ ascii_text (opt_text (fst (take_fraction s))) = true.
Proof.
  destruct s as [|dot t]; [split; reflexivity|]. cbn [take_fraction].
  destruct (N.eqb_spec dot 46) as [->|_]; [|split; reflexivity].
  destruct (span_digits_split t) as [S A].
  destruct (span_digits t) as [[|f fs] r]; [split; reflexivity|].
  cbn [fst snd opt_text] in *. split; [rewrite S at 1; reflexivity|].
  cbn [ascii_text forallb]. apply (digits_ascii _ A).
Qed.

Lemma take_exponent_split s :
  s = opt_text (fst (take_exponent s)) ++ snd (take_exponent s)
  /\ ascii_text (opt_text (fst (take_exponent s))) = true.
Proof.
  destruct s as [|e t]; [split; reflexivity|]. cbn [take_exponent].
  destruct ((e =? 101) || (e =? 69)) eqn:E; [|split; reflexivity].
  assert (Ae : is_ascii e = true).
  { unfold is_ascii. revert E. ncmp; discriminate. }
  assert (G : forall sign t',
             t = sign ++ t' -> ascii_text sign = true ->
             e :: t
             = opt_text (fst (let (es, rest) := span_digits t' in
                              match es with
                              | [] => (None, e :: t)
                              | _ :: _ => (Some (e :: sign ++ es), rest)
                              end))
               ++ snd (let (es, rest) := span_digits t' in
                       match es with
                       | [] => (None, e :: t)
                       | _ :: _ => (Some (e :: sign ++ es), rest)
                       end)
             /\ ascii_text
                  (opt_text (fst (let (es, rest) := span_digits t' in
                                  match es with
                                  | [] => (None, e :: t)
                                  | _ :: _ => (Some (e :: sign ++ es), rest)
                                  end))) = true).
  { intros sign t' -> As. destruct (span_digits_split t') as [S A].
    destruct (span_digits t') as [[|f fs] r]; [split; reflexivity|].
    cbn [fst snd opt_text] in *. split.
    - rewrite S at 1. cbn [app]. rewrite <- app_assoc. reflexivity.
    - cbn [ascii_text forallb]. rewrite Ae.
      apply andb_true_iff in A as [Df A].
      rewrite forallb_app. fold (ascii_text sign). rewrite As.
      cbn [forallb]. rewrite (digit_ascii _ Df). apply (digits_ascii _ A). }
  destruct t as [|sg t']; [apply (G [] []); reflexivity|].
  destruct ((sg =? 45) || (sg =? 43)) eqn:Es.
  - apply (G [sg] t'); trivial. cbn. unfold is_ascii.
    revert Es. ncmp; discriminate.
  - apply (G [] (sg :: t')); reflexivity.
Qed.

Lemma match_number_split s neg i f e r :
  match_number s = Some (neg, i, f, e, r) ->
  s = ((if neg then [45] else []) ++ i ++ opt_text f ++ opt_text e) ++ r
  /\ ascii_text ((if neg then [45] else []) ++ i ++ opt_text f ++ opt_text e)
     = true.
Proof.
  unfold match_number. pose proof (take_sign_split s) as S.
  destruct (take_sign s) as [neg0 s0]. cbn [fst snd] in S.
  destruct (take_integer s0) as [[i0 s1]|] eqn:Ei; [|discriminate].
  destruct (take_integer_split _ _ _ Ei) as [I Ai].
  destruct (take_fraction_split s1) as [F Af].
  destruct (take_fraction s1) as [f0 s2]. cbn [fst snd] in *.
  destruct (take_exponent_split s2) as [X Ax].
  destruct (take_exponent s2) as [e0 s3]. cbn [fst snd] in *.
  intros E. inversion E. subst neg0 i0 f0 e0 s3. split.
  - rewrite S, I, F, X at 1. rewrite <- !app_assoc. reflexivity.
  - rewrite !ascii_text_app, Ai, Af, Ax. destruct neg; reflexivity.
Qed.

(** ** Floats *)

Lemma finite_float_repr_match r :
  finite_float_repr r = true ->
  exists neg i f e,
    match_number r = Some (neg, i, f, e, [])
    /\ (f <> None \/ e <> None).
Proof.
  unfold finite_float_repr.
  destruct (match_number r) as [[[[[neg i] f] e] [|c r']]|]; try discriminate.
  intros H. exists neg, i, f, e. split; trivial.
  destruct f; [left; discriminate|]. destruct e; [right|]; discriminate.
Qed.

Lemma scan_number_float r rest :
  finite_float_repr r = true ->
  closes rest = true ->
  scan_number (r ++ rest) = Some (JFloat r, rest).
Proof.
  intros F H.
  destruct (finite_float_repr_match r F) as (neg & i & f & e & M & P).
  unfold scan_number. rewrite (match_number_app _ _ _ _ _ _ _ H M). cbn [app].
  destruct (match_number_split _ _ _ _ _ _ M) as [S _].
  rewrite List.app_nil_r in S. rewrite <- S.
  destruct f; [reflexivity|]. destruct e; [reflexivity|].
  destruct P; congruence.
Qed.

Lemma finite_float_repr_ascii r :
  finite_float_repr r = true -> ascii_text r = true.
Proof.
  intros F. destruct (finite_float_repr_match r F) as (neg & i & f & e & M & _).
  destruct (match_number_split _ _ _ _ _ _ M) as [S A].
  rewrite List.app_nil_r in S. rewrite S. exact A.
Qed.

Lemma repr_N_ascii n : ascii_text (repr_N n) = true.
Proof. apply digits_ascii, chars_of_uint_digits. Qed.

Lemma int_repr_ascii z : ascii_text (int_repr z) = true.
Proof.
  destruct z as [|p|p]; cbn [int_repr].
  - apply repr_N_ascii.
  - apply repr_N_ascii.
  - cbn [ascii_text forallb]. apply (repr_N_ascii (N.pos p)).
Qed.

End NumFacts.

(* ================================================================== *)
(** * Facts about values: what [_iterencode] writes, [scan_once] reads *)
(* ================================================================== *)

Module ValueFacts.
Import Py Json Text StrFacts NumFacts.
Local Open Scope N_scope.

Lemma rbind_ok {A B} (r : result A) (k : A -> result B) b :
  rbind r k = Ok b -> exists a, r = Ok a /\ k a = Ok b.
Proof. destruct r as [a|e]; [exists a; auto|discriminate]. Qed.

Lemma floatstr_finite r : finite_float_repr r = true -> floatstr r = r.
Proof.
  intros F. unfold floatstr.
  destruct (str_eqb r (lit "nan")) eqn:E1;
    [apply str_eqb_eq in E1; subst; discriminate F|].
  destruct (str_eqb r (lit "inf")) eqn:E2;
    [apply str_eqb_eq in E2; subst; discriminate F|].
  destruct (str_eqb r (lit "-inf")) eqn:E3;
    [apply str_eqb_eq in E3; subst; discriminate F|].
  reflexivity.
Qed.

Lemma match_number_head s x : match_number s = Some x -> number_head s = true.
Proof.
  unfold match_number. destruct s as [|c t]; [discriminate|].
  cbn [take_sign number_head].
  destruct (N.eqb_spec c 45) as [->|_]; trivial.
  cbn [take_integer orb]. destruct (is_digit c); [trivial|discriminate].
Qed.

Lemma scan_once_number fuel s rest :
  number_head s = true ->
  scan_once (S fuel) (s ++ rest) = scan_number (s ++ rest).
Proof.
  destruct s as [|c t]; [discriminate|]. cbn [number_head app scan_once].
  intros H.
  assert (c = 45 \/ 48 <= c <= 57) as R.
  { revert H. unfold is_digit. ncmp; intros; try discriminate; lia. }
  repeat match goal with
         | |- context [c =? ?k] =>
           destruct (N.eqb_spec c k); [exfalso; lia|]
         end.
  reflexivity.
Qed.

Lemma int_repr_head z : number_head (int_repr z) = true.
Proof.
  destruct z as [|p|p]; cbn [int_repr]; trivial;
    destruct (repr_N_head (Z.to_N (Z.pos p))) as (d & ds & E & D);
    rewrite E; cbn [number_head]; rewrite D; apply orb_true_r.
Qed.

Section Hook.

Variable _default : obj -> result str.

Local Abbreviation enc := (_iterencode _default).
Local Abbreviation dec := (decoded _default).

(** Every text that is written starts with a character that is not
    white space. *)
Lemma iterencode_head o text :
  representable o = true -> enc o = Ok text ->
  exists c t, text = c :: t /\ is_ws c = false /\ c <> 93.
Proof.
  destruct o as [|[|]|z|r|s|[|x l]|[|[k x] d]|d|cls]; cbn [_iterencode];
    intros R E; try discriminate R;
    try (inversion E; eexists; eexists; repeat split; discriminate).
  - inversion E. subst text. pose proof (int_repr_head z) as H.
    destruct (int_repr z) as [|c t]; [discriminate|]. exists c, t.
    revert H. unfold number_head, is_digit, is_ws.
    repeat split; trivial; revert H; ncmp; discriminate.
  - inversion E. subst text. cbn [representable] in R.
    rewrite (floatstr_finite _ R).
    destruct (finite_float_repr_match _ R) as (neg & i & f & e & M & _).
    pose proof (match_number_head _ _ M) as H.
    destruct r as [|c t]; [discriminate|]. exists c, t.
    revert H. unfold number_head, is_digit, is_ws.
    repeat split; trivial; revert H; ncmp; discriminate.
  - apply rbind_ok in E as (a & _ & E). apply rbind_ok in E as (b & _ & E).
    inversion E. eexists; eexists; repeat split; discriminate.
  - apply rbind_ok in E as (a & _ & E). apply rbind_ok in E as (b & _ & E).
    inversion E. eexists; eexists; repeat split; discriminate.
  - apply rbind_ok in E as (a & _ & E).
    inversion E. eexists; eexists; repeat split; discriminate.
Qed.

Lemma skip_ws_head c t : is_ws c = false -> skip_ws (c :: t) = c :: t.
Proof. intros H. cbn [skip_ws]. rewrite H. reflexivity. Qed.

(** The statement for one object: the text written for it is read back
    as [decoded], whatever closes it, given fuel beyond its length. *)
Local Abbreviation reads_back o :=
  (representable o = true ->
   forall text, enc o = Ok text ->
   forall fuel rest, closes rest = true ->
   (List.length text < fuel)%nat ->
   scan_once fuel (text ++ rest) = Some (dec o, rest)).

Lemma scan_string fuel s rest :
  scan_once (S fuel) (py_encode_basestring_ascii s ++ rest)
  = Some (JStr (reread s), rest).
Proof.
  unfold py_encode_basestring_ascii. cbn [app scan_once].
  change (34 =? 34) with true. cbv iota.
  rewrite <- app_assoc. cbn [app]. rewrite scanstring_escaped. reflexivity.
Qed.

Lemma scan_items l :
  Forall (fun x => reads_back x) l ->
  forallb representable l = true ->
  forall x first others,
    reads_back x -> representable x = true ->
    enc x = Ok first ->
    _iterencode_list enc l = Ok others ->
    forall fuel rest,
      (List.length first + List.length others + 1 < fuel)%nat ->
      JSONArray_items fuel (first ++ others ++ 93 :: rest)
      = Some (dec x :: map dec l, rest).
Proof.
  induction 1 as [|y l Hy Hl IH];
    intros R x first others Hx Rx Ex El fuel rest F.
  - inversion El. subst others. cbn [app map].
    destruct fuel as [|fuel]; [lia|]. cbn [JSONArray_items].
    rewrite (Hx Rx _ Ex) by (trivial; cbn [List.length] in F; lia).
    cbn [skip_ws]. change (is_ws 93) with false. cbv iota.
    change (93 =? 93) with true. reflexivity.
  - cbn [forallb] in R. apply andb_true_iff in R as [Ry R].
    cbn [_iterencode_list] in El.
    apply rbind_ok in El as (a & Ey & El).
    apply rbind_ok in El as (b & Eb & El).
    inversion El. subst others. clear El.
    cbn [List.length] in F. rewrite length_app in F.
    replace ((44 :: 32 :: a ++ b) ++ 93 :: rest)
      with (44 :: 32 :: a ++ b ++ 93 :: rest)
      by (cbn [app]; rewrite <- app_assoc; reflexivity).
    destruct fuel as [|fuel]; [lia|]. cbn [JSONArray_items].
    rewrite (Hx Rx _ Ex) by (trivial; lia).
    cbn [skip_ws]. change (is_ws 44) with false. cbv iota.
    change (44 =? 93) with false. change (44 =? 44) with true. cbv iota.
    cbn [skip_ws]. change (is_ws 32) with true. cbv iota.
    destruct (iterencode_head _ _ Ry Ey) as (c & t & -> & W & _).
    cbn [app]. rewrite (skip_ws_head _ _ W).
    change (c :: t ++ b ++ 93 :: rest) with ((c :: t) ++ b ++ 93 :: rest).
    rewrite (IH R y (c :: t) b Hy Ry Ey Eb) by (cbn [List.length] in *; lia).
    reflexivity.
Qed.


Lemma scan_pairs d :
  Forall (fun kv => reads_back (snd kv)) d ->
  forallb (fun kv => representable (snd kv)) d = true ->
  forall k x first others,
    reads_back x -> representable x = true ->
    enc x = Ok first ->
    _iterencode_dict enc d = Ok others ->
    forall fuel rest,
      (List.length first + List.length others + 1 < fuel)%nat ->
      JSONObject_pairs fuel
        (flat_map escape_char k
         ++ 34 :: 58 :: 32 :: first ++ others ++ 125 :: rest)
      = Some ((reread k, dec x)
                :: map (fun kv => (reread (fst kv), dec (snd kv))) d,
              rest).
Proof.
  induction 1 as [|[k' y] d Hy Hd IH];
    intros R k x first others Hx Rx Ex Ed fuel rest F;
    (destruct fuel as [|fuel]; [lia|]);
    cbn [JSONObject_pairs]; rewrite scanstring_escaped;
    cbn [skip_ws]; change (is_ws 58) with false; cbv iota;
    change (58 =? 58) with true; cbv iota;
    cbn [skip_ws]; change (is_ws 32) with true; cbv iota;
    destruct (iterencode_head _ _ Rx Ex) as (c & t & Ef & W & _);
    rewrite Ef at 1; cbn [app]; rewrite (skip_ws_head _ _ W);
    change (c :: t ++ others ++ 125 :: rest)
      with ((c :: t) ++ others ++ 125 :: rest);
    rewrite <- Ef.
  - inversion Ed. subst others. cbn [app map].
    rewrite (Hx Rx _ Ex) by (trivial; cbn [List.length] in F; lia).
    cbn [skip_ws]. change (is_ws 125) with false. cbv iota.
    change (125 =? 125) with true. reflexivity.
  - cbn [forallb snd] in R. apply andb_true_iff in R as [Ry R].
    cbn [_iterencode_dict] in Ed.
    apply rbind_ok in Ed as (a & Ey & Ed).
    apply rbind_ok in Ed as (b & Eb & Ed).
    inversion Ed. subst others. clear Ed.
    cbn [List.length app] in F. rewrite !length_app in F.
    cbn [List.length] in F. rewrite !length_app in F.
    replace ((44 :: 32 :: 34
              :: (flat_map escape_char k' ++ [34]) ++ 58 :: 32 :: a ++ b)
             ++ 125 :: rest)
      with (44 :: 32 :: 34
            :: (flat_map escape_char k'
                ++ 34 :: 58 :: 32 :: a ++ b ++ 125 :: rest))
      by (cbn [app]; rewrite <- !app_assoc; cbn [app];
          rewrite <- !app_assoc; reflexivity).
    rewrite (Hx Rx _ Ex) by (trivial; lia).
    cbn [skip_ws]. change (is_ws 44) with false. cbv iota.
    change (44 =? 125) with false. change (44 =? 44) with true. cbv iota.
    cbn [skip_ws]. change (is_ws 32) with true. cbv iota.
    change (is_ws 34) with false. cbv iota. change (34 =? 34) with true.
    cbv iota.
    rewrite (IH R k' y a b Hy Ry Ey Eb) by lia.
    reflexivity.
Qed.

(** What [_iterencode] writes for a representable object, [scan_once]
    reads back as [decoded], whatever closes the text. *)
Lemma scan_iterencode o : reads_back o.
Proof.
  induction o as [|b|z|r|s|l IH|d IH|d|cls] using obj_ind;
    intros R text E fuel rest C F;
    (destruct fuel as [|fuel]; [lia|]); cbn [_iterencode] in E.
  - inversion E. reflexivity.
  - destruct b; inversion E; reflexivity.
  - inversion E. rewrite (scan_once_number _ _ _ (int_repr_head z)).
    apply scan_number_int, C.
  - inversion E. cbn [representable] in R. rewrite (floatstr_finite _ R).
    destruct (finite_float_repr_match _ R) as (neg & i & f & e & M & _).
    rewrite (scan_once_number _ _ _ (match_number_head _ _ M)).
    apply scan_number_float; trivial.
  - inversion E. apply scan_string.
  - destruct l as [|x l]; [inversion E; reflexivity|].
    apply rbind_ok in E as (first & Ex & E).
    apply rbind_ok in E as (others & El & E). inversion E. subst text.
    cbn [representable forallb] in R. apply andb_true_iff in R as [Rx R].
    inversion IH as [|? ? Hx Hl]. subst.
    cbn [List.length] in F. rewrite !length_app in F. cbn [List.length] in F.
    destruct (iterencode_head _ _ Rx Ex) as (c & t & Ef & W & N93).
    replace ((91 :: first ++ others ++ [93]) ++ rest)
      with (91 :: first ++ others ++ 93 :: rest)
      by (cbn [app]; rewrite <- !app_assoc; reflexivity).
    cbn [scan_once]. change (91 =? 34) with false.
    change (91 =? 123) with false.
    change (91 =? 91) with true. cbv iota.
    rewrite Ef at 1. cbn [app]. rewrite (skip_ws_head _ _ W).
    apply N.eqb_neq in N93. rewrite N93.
    change (c :: t ++ others ++ 93 :: rest)
      with ((c :: t) ++ others ++ 93 :: rest).
    rewrite <- Ef.
    rewrite (scan_items l Hl R x first others Hx Rx Ex El) by lia.
    reflexivity.
  - destruct d as [|[k x] d]; [inversion E; reflexivity|].
    apply rbind_ok in E as (first & Ex & E).
    apply rbind_ok in E as (others & Ed & E). inversion E. subst text.
    cbn [representable forallb snd] in R. apply andb_true_iff in R as [Rx R].
    inversion IH as [|? ? Hx Hd]. subst. cbn [snd] in Hx.
    cbn [List.length app] in F. rewrite !length_app in F.
    cbn [List.length] in F. rewrite !length_app in F. cbn [List.length] in F.
    replace ((123 :: 34 :: (flat_map escape_char k ++ [34])
                  ++ 58 :: 32 :: first ++ others ++ [125]) ++ rest)
      with (123 :: 34
            :: (flat_map escape_char k
                ++ 34 :: 58 :: 32 :: first ++ others ++ 125 :: rest))
      by (cbn [app]; rewrite <- !app_assoc; cbn [app];
          rewrite <- !app_assoc; reflexivity).
    cbn [scan_once]. change (123 =? 34) with false.
    change (123 =? 123) with true. cbv iota.
    cbn [skip_ws]. change (is_ws 34) with false. cbv iota.
    change (34 =? 125) with false. change (34 =? 34) with true. cbv iota.
    rewrite (scan_pairs d Hd R k x first others Hx Rx Ex Ed) by lia.
    reflexivity.
  - apply rbind_ok in E as (s & Es & E). inversion E.
    rewrite scan_string. cbn [decoded]. rewrite Es. reflexivity.
  - discriminate R.
Qed.

End Hook.

End ValueFacts.

(* ================================================================== *)
(** * Facts about payloads: ASCII text, UTF-8, and the whole document *)
(* ================================================================== *)

Module PayloadFacts.
Import Py Json Text StrFacts NumFacts ValueFacts.
Local Open Scope N_scope.

Lemma ascii_text_cons c s : ascii_text (c :: s) = is_ascii c && ascii_text s.
Proof. reflexivity. Qed.

Ltac ascii_parts :=
  repeat (rewrite ascii_text_cons || rewrite ascii_text_app).

Lemma hexdigit_ascii v : v < 16 -> is_ascii (hexdigit v) = true.
Proof.
  intros H. unfold hexdigit, is_ascii.
  destruct (N.ltb_spec v 10); apply N.ltb_lt; lia.
Qed.

Lemma format_04x_ascii n : ascii_text (format_04x n) = true.
Proof.
  unfold format_04x. cbn [ascii_text forallb].
  rewrite !hexdigit_ascii by (apply N.mod_lt; discriminate). reflexivity.
Qed.

Lemma escape_char_ascii c : ascii_text (escape_char c) = true.
Proof.
  destruct (escape_char_cases c)
    as [[E ->]|[(e & Ne & B & ->)|[[L ->]|[L ->]]]].
  - cbn [ascii_text forallb]. unfold is_ascii.
    revert E. unfold ESCAPE_ASCII. ncmp; discriminate.
  - revert B. unfold BACKSLASH.
    repeat match goal with
           | |- context [e =? ?k] => destruct (N.eqb_spec e k); [subst e|]
           end; try reflexivity; discriminate.
  - cbn [ascii_text forallb]. apply (format_04x_ascii c).
  - rewrite ascii_text_app. cbn [ascii_text forallb].
    fold (ascii_text (format_04x (0xd800 + ((c - 0x10000) / 1024) mod 1024))).
    fold (ascii_text (format_04x (0xdc00 + (c - 0x10000) mod 1024))).
    rewrite !format_04x_ascii. reflexivity.
Qed.

Lemma escaped_ascii s : ascii_text (flat_map escape_char s) = true.
Proof.
  induction s as [|c s IH]; trivial. cbn [flat_map].
  rewrite ascii_text_app, escape_char_ascii, IH. reflexivity.
Qed.

Lemma encode_basestring_ascii s :
  ascii_text (py_encode_basestring_ascii s) = true.
Proof.
  unfold py_encode_basestring_ascii. ascii_parts. rewrite escaped_ascii.
  reflexivity.
Qed.

Section Hook.

Variable _default : obj -> result str.

Local Abbreviation enc := (_iterencode _default).

Lemma iterencode_list_ascii l :
  Forall (fun x => representable x = true ->
                   forall text, enc x = Ok text -> ascii_text text = true) l ->
  forallb representable l = true ->
  forall others, _iterencode_list enc l = Ok others ->
  ascii_text others = true.
Proof.
  induction 1 as [|y l Hy Hl IH]; intros R others E.
  - inversion E. reflexivity.
  - cbn [forallb] in R. apply andb_true_iff in R as [Ry R].
    cbn [_iterencode_list] in E.
    apply rbind_ok in E as (a & Ey & E). apply rbind_ok in E as (b & Eb & E).
    inversion E. ascii_parts. rewrite (Hy Ry _ Ey), (IH R _ Eb).
    reflexivity.
Qed.

Lemma iterencode_dict_ascii d :
  Forall (fun kv => representable (snd kv) = true ->
                    forall text, enc (snd kv) = Ok text ->
                    ascii_text text = true) d ->
  forallb (fun kv => representable (snd kv)) d = true ->
  forall others, _iterencode_dict enc d = Ok others ->
  ascii_text others = true.
Proof.
  induction 1 as [|[k y] d Hy Hd IH]; intros R others E.
  - inversion E. reflexivity.
  - cbn [forallb snd] in R. apply andb_true_iff in R as [Ry R].
    cbn [_iterencode_dict] in E.
    apply rbind_ok in E as (a & Ey & E). apply rbind_ok in E as (b & Eb & E).
    inversion E. ascii_parts.
    rewrite escaped_ascii, (Hy Ry _ Ey), (IH R _ Eb). reflexivity.
Qed.

(** The text written for a representable object is ASCII. *)
Lemma iterencode_ascii o :
  representable o = true ->
  forall text, enc o = Ok text -> ascii_text text = true.
Proof.
  induction o as [|b|z|r|s|l IH|d IH|d|cls] using obj_ind;
    intros R text E; cbn [_iterencode] in E.
  - inversion E. reflexivity.
  - destruct b; inversion E; reflexivity.
  - inversion E. apply int_repr_ascii.
  - inversion E. cbn [representable] in R. rewrite (floatstr_finite _ R).
    apply finite_float_repr_ascii, R.
  - inversion E. apply encode_basestring_ascii.
  - destruct l as [|x l]; [inversion E; reflexivity|].
    apply rbind_ok in E as (first & Ex & E).
    apply rbind_ok in E as (others & El & E). inversion E.
    cbn [representable forallb] in R. apply andb_true_iff in R as [Rx R].
    inversion IH as [|? ? Hx Hl]. subst.
    ascii_parts.
    rewrite (Hx Rx _ Ex), (iterencode_list_ascii l Hl R _ El).
    reflexivity.
  - destruct d as [|[k x] d]; [inversion E; reflexivity|].
    apply rbind_ok in E as (first & Ex & E).
    apply rbind_ok in E as (others & Ed & E). inversion E.
    cbn [representable forallb snd] in R. apply andb_true_iff in R as [Rx R].
    inversion IH as [|? ? Hx Hd]. subst. cbn [snd] in Hx.
    ascii_parts.
    rewrite escaped_ascii, (Hx Rx _ Ex), (iterencode_dict_ascii d Hd R _ Ed).
    reflexivity.
  - apply rbind_ok in E as (s & _ & E). inversion E.
    apply encode_basestring_ascii.
  - discriminate R.
Qed.

(** A representable object is written without error, when the hook
    answers for every date and time. *)
Hypothesis default_datetime :
  forall d, exists s, _default (PyDatetime d) = Ok s.

Lemma iterencode_list_total l :
  Forall (fun x => representable x = true -> exists text, enc x = Ok text) l ->
  forallb representable l = true ->
  exists others, _iterencode_list enc l = Ok others.
Proof.
  induction 1 as [|y l Hy Hl IH]; intros R; [exists []; reflexivity|].
  cbn [forallb] in R. apply andb_true_iff in R as [Ry R].
  destruct (Hy Ry) as [a Ea]. destruct (IH R) as [b Eb].
  cbn [_iterencode_list]. rewrite Ea, Eb. eexists. reflexivity.
Qed.

Lemma iterencode_dict_total d :
  Forall (fun kv => representable (snd kv) = true ->
                    exists text, enc (snd kv) = Ok text) d ->
  forallb (fun kv => representable (snd kv)) d = true ->
  exists others, _iterencode_dict enc d = Ok others.
Proof.
  induction 1 as [|[k y] d Hy Hd IH]; intros R; [exists []; reflexivity|].
  cbn [forallb snd] in R. apply andb_true_iff in R as [Ry R].
  destruct (Hy Ry) as [a Ea]. destruct (IH R) as [b Eb].
  cbn [_iterencode_dict]. cbn [snd] in Ea. rewrite Ea, Eb.
  eexists. reflexivity.
Qed.

Lemma iterencode_total o :
  representable o = true -> exists text, enc o = Ok text.
Proof.
  induction o as [|b|z|r|s|l IH|d IH|d|cls] using obj_ind;
    intros R; cbn [_iterencode];
    try (eexists; reflexivity); try discriminate R.
  - destruct b; eexists; reflexivity.
  - destruct l as [|x l]; [eexists; reflexivity|].
    cbn [representable forallb] in R. apply andb_true_iff in R as [Rx R].
    inversion IH as [|? ? Hx Hl]. subst.
    destruct (Hx Rx) as [a Ea].
    destruct (iterencode_list_total l Hl R) as [b Eb].
    rewrite Ea, Eb. eexists. reflexivity.
  - destruct d as [|[k x] d]; [eexists; reflexivity|].
    cbn [representable forallb snd] in R. apply andb_true_iff in R as [Rx R].
    inversion IH as [|? ? Hx Hd]. subst. cbn [snd] in Hx.
    destruct (Hx Rx) as [a Ea].
    destruct (iterencode_dict_total d Hd R) as [b Eb].
    rewrite Ea, Eb. eexists. reflexivity.
  - destruct (default_datetime d) as [s Es]. rewrite Es.
    eexists. reflexivity.
Qed.

End Hook.

(** ** UTF-8 of ASCII text *)

Lemma byte_of_N_to_N c : c < 256 -> Byte.to_N (byte_of_N c) = c.
Proof.
  intros H. unfold byte_of_N. destruct (Byte.of_N c) as [b|] eqn:E.
  - apply Byte.to_of_N, E.
  - apply Byte.of_N_None_iff in E. lia.
Qed.

Lemma utf8_ascii text :
  ascii_text text = true ->
  str_encode_utf8 text = Ok (map byte_of_N text)
  /\ bytes_decode_utf8 (map byte_of_N text) = Some text.
Proof.
  induction text as [|c t IH]; [split; reflexivity|].
  cbn [ascii_text forallb]. intros H. apply andb_true_iff in H as [A H].
  destruct (IH H) as [E D]. unfold is_ascii in A. apply N.ltb_lt in A.
  split.
  - cbn [str_encode_utf8 map]. unfold utf8_of_char.
    destruct (N.ltb_spec c 128); [|lia]. cbn [rbind]. rewrite E. reflexivity.
  - cbn [map bytes_decode_utf8]. rewrite byte_of_N_to_N by lia.
    destruct (N.ltb_spec c 128); [|lia]. rewrite D. reflexivity.
Qed.

(** ** The whole document *)

Lemma decode_iterencode _default o text :
  representable o = true ->
  _iterencode _default o = Ok text ->
  JSONDecoder_decode text = Some (decoded _default o).
Proof.
  intros R E. unfold JSONDecoder_decode.
  destruct (iterencode_head _ _ _ R E) as (c & t & Et & W & _).
  rewrite Et at 2. rewrite (skip_ws_head _ _ W), <- Et.
  pose proof (scan_iterencode _default o R text E
                (S (List.length text)) [] eq_refl) as H.
  rewrite List.app_nil_r in H. rewrite H by lia. reflexivity.
Qed.

Lemma loads_dumps _default o text :
  representable o = true ->
  dumps o _default = Ok text ->
  exists payload,
    str_encode_utf8 text = Ok payload
    /\ payload <> []
    /\ loads payload = Some (decoded _default o).
Proof.
  unfold dumps, JSONEncoder_encode. intros R E.
  destruct (utf8_ascii text (iterencode_ascii _ o R text E)) as [U D].
  exists (map byte_of_N text). repeat split; trivial.
  - destruct (iterencode_head _ _ _ R E) as (c & t & -> & _). discriminate.
  - unfold loads. rewrite D. apply (decode_iterencode _ _ _ R E).
Qed.

End PayloadFacts.

(* ================================================================== *)
(** * Facts about the manager *)
(* ================================================================== *)

Module ManagerFacts.
Import Py Json Text Hass KafkaManager Observe.
Import StrFacts NumFacts ValueFacts PayloadFacts.

(** ** The encoder of events *)

Lemma str_in_sentinels x :
  str_in x [STATE_UNKNOWN; []; STATE_UNAVAILABLE]
  = str_eqb x [] || str_eqb x STATE_UNKNOWN
    || str_eqb x STATE_UNAVAILABLE.
Proof.
  unfold str_in. cbn [existsb].
  destruct (str_eqb x STATE_UNKNOWN), (str_eqb x []),
    (str_eqb x STATE_UNAVAILABLE); reflexivity.
Qed.

Lemma encode_event_route self event route :
  _encode_event self event (filter route)
  = if qualifies self event route then
      match new_state (data event) with
      | Some new => rbind (payload_of new) (fun p => Ok (Some p))
      | None => Ok None
      end
    else Ok None.
Proof.
  unfold _encode_event, qualifies, payload_of.
  destruct (new_state (data event)) as [new|]; trivial.
  rewrite str_in_sentinels.
  destruct (str_eqb (state new) [] || str_eqb (state new) STATE_UNKNOWN
            || str_eqb (state new) STATE_UNAVAILABLE),
    (_entities_filter self (entity_id new)), (filter route (entity_id new));
    cbn [negb orb andb]; trivial.
  destruct (dumps (as_dict new) DateTimeJSONEncoder.encode); reflexivity.
Qed.

Lemma dumps_dict_head d default text :
  d <> [] -> dumps (PyDict d) default = Ok text ->
  exists t, text = 123%N :: t.
Proof.
  unfold dumps, JSONEncoder_encode. cbn [_iterencode].
  destruct d as [|[k x] d]; [congruence|]. intros _ E.
  apply rbind_ok in E as (a & _ & E). apply rbind_ok in E as (b & _ & E).
  inversion E. eexists. reflexivity.
Qed.

(** A payload is never empty, so [if payload:] lets it through. *)
Lemma payload_of_truthy new p : payload_of new = Ok p -> truthy (Some p) = true.
Proof.
  unfold payload_of. intros E. apply rbind_ok in E as (text & D & U).
  apply dumps_dict_head in D as [t ->]; [|discriminate].
  cbn [str_encode_utf8] in U. apply rbind_ok in U as (a & Ea & U).
  apply rbind_ok in U as (b & _ & U). inversion Ea. inversion U. subst.
  reflexivity.
Qed.

Lemma encode_event_qualified self event route new p :
  new_state (data event) = Some new ->
  payload_of new = Ok p ->
  qualifies self event route = true ->
  _encode_event self event (filter route) = Ok (Some p).
Proof.
  intros N P Q. rewrite encode_event_route, Q, N, P. reflexivity.
Qed.

Lemma encode_event_skipped self event route :
  qualifies self event route = false ->
  _encode_event self event (filter route) = Ok None.
Proof. intros Q. rewrite encode_event_route, Q. reflexivity. Qed.

(** ** The loop of [write], told without the world *)

Lemma write_loop_run event topics :
  forall me l a,
    write_loop event topics
      {| self := me; world := {| log := l; answers := a |} |}
    = let '(r, eff, a') := write_trace me event topics a in
      (r, {| self := me; world := {| log := l ++ eff; answers := a' |} |}).
Proof.
  induction topics as [|route rest IH]; intros me l a.
  - cbn. rewrite List.app_nil_r. reflexivity.
  - cbn [write_loop write_trace bind emit get_self lift ret await
         self world log answers].
    destruct (_encode_event me event (filter route)) as [[[|b p]|]|x];
      cbn [truthy bind ret await self world log answers].
    + rewrite IH. destruct (write_trace me event rest a) as [[r eff] a'].
      rewrite <- List.app_assoc. reflexivity.
    + destruct a as [|[e|] a'];
        cbn [bind await ret self world log answers tl]; try rewrite IH;
        try (destruct (write_trace me event rest _) as [[r eff] a'']);
        rewrite <- !List.app_assoc; reflexivity.
    + rewrite IH. destruct (write_trace me event rest a) as [[r eff] a'].
      rewrite <- List.app_assoc. reflexivity.
    + reflexivity.
Qed.

Lemma write_run event s :
  write event s
  = let '(r, eff, a') :=
      write_trace (self s) event (_topics (self s)) (answers (world s)) in
    (r, {| self := self s;
           world := {| log := log (world s) ++ eff; answers := a' |} |}).
Proof.
  destruct s as [me [l a]]. unfold write. cbn [bind get_self self world].
  apply write_loop_run.
Qed.

(** ** When every send is acknowledged *)

Lemma skipn_nil_opt (n : nat) : skipn n (@nil (option exn)) = [].
Proof. destruct n; reflexivity. Qed.

Lemma acknowledges_nil n : acknowledges n [] = true.
Proof. destruct n; reflexivity. Qed.

Lemma qualifies_new_state self event route :
  qualifies self event route = true ->
  exists new, new_state (data event) = Some new.
Proof.
  unfold qualifies. destruct (new_state (data event)) as [new|];
    [exists new; trivial|discriminate].
Qed.

Section OneEvent.

Variable self : t.
Variable event : Event.
Variable p : bytes.

(** The state of the event, if it has one, encodes to [p]. *)
Hypothesis encodes :
  forall new, new_state (data event) = Some new -> payload_of new = Ok p.

Lemma encode_event_p route :
  qualifies self event route = true ->
  _encode_event self event (filter route) = Ok (Some p)
  /\ truthy (Some p) = true.
Proof.
  intros Q. destruct (qualifies_new_state _ _ _ Q) as [new N].
  split; [apply (encode_event_qualified _ _ _ new); auto|].
  apply (payload_of_truthy new), encodes, N.
Qed.

Lemma write_trace_acked topics :
  forall a,
    acknowledges (List.length (qualifying self event topics)) a = true ->
    write_trace self event topics a
    = (Ok tt, flat_map (route_effects self event p) topics,
       skipn (List.length (qualifying self event topics)) a).
Proof.
  induction topics as [|route rest IH]; intros a A; [reflexivity|].
  cbn [write_trace flat_map qualifying List.filter].
  unfold route_effects at 1. fold (qualifying self event rest) in *.
  cbn [qualifying List.filter] in A. fold (qualifying self event rest) in A.
  destruct (qualifies self event route) eqn:Q.
  - destruct (encode_event_p route Q) as [-> T]. rewrite T.
    cbn [List.length] in *.
    destruct a as [|[e|] a']; cbn [acknowledges tl skipn] in *;
      try discriminate.
    + rewrite IH by apply acknowledges_nil. rewrite skipn_nil_opt.
      reflexivity.
    + rewrite (IH a' A). reflexivity.
  - rewrite (encode_event_skipped _ _ _ Q), (IH a A). reflexivity.
Qed.

Lemma sends_route_effects topics :
  sends (flat_map (route_effects self event p) topics)
  = map (fun route => (topic route, p)) (qualifying self event topics).
Proof.
  induction topics as [|route rest IH]; trivial.
  cbn [flat_map qualifying List.filter]. unfold route_effects at 1.
  fold (qualifying self event rest).
  destruct (qualifies self event route); cbn [app sends map]; rewrite IH;
    reflexivity.
Qed.

Lemma evaluated_route_effects topics :
  evaluated (flat_map (route_effects self event p) topics)
  = map topic topics.
Proof.
  induction topics as [|route rest IH]; trivial.
  cbn [flat_map]. unfold route_effects at 1.
  destruct (qualifies self event route); cbn [app evaluated map]; rewrite IH;
    reflexivity.
Qed.

(** ** When a send fails *)

Lemma write_trace_failed pre :
  forall route post e a',
    qualifies self event route = true ->
    write_trace self event (pre ++ route :: post)
      (repeat None (List.length (qualifying self event pre))
       ++ Some e :: a')
    = (Raise e,
       flat_map (route_effects self event p) pre
       ++ [Evaluate (topic route);
           Invoke (SendAndWait (topic route) p); Raised e],
       a').
Proof.
  induction pre as [|r pre IH]; intros route post e a' Q.
  - cbn [app write_trace qualifying List.filter List.length repeat flat_map].
    destruct (encode_event_p route Q) as [-> T]. rewrite T. reflexivity.
  - cbn [app write_trace flat_map qualifying List.filter].
    unfold route_effects at 1. fold (qualifying self event pre).
    destruct (qualifies self event r) eqn:Qr.
    + destruct (encode_event_p r Qr) as [-> T]. rewrite T.
      cbn [List.length repeat app tl]. rewrite (IH route post e a' Q).
      reflexivity.
    + rewrite (encode_event_skipped _ _ _ Qr), (IH route post e a' Q).
      reflexivity.
Qed.

End OneEvent.

(** ** Whatever the connection answers *)

Lemma evaluated_write_trace self event topics :
  forall a,
    let '(r, eff, _) := write_trace self event topics a in
    evaluated eff
    = firstn (List.length (evaluated eff)) (map topic topics)
    /\ match r with
       | Ok _ => evaluated eff = map topic topics
       | Raise _ => True
       end.
Proof.
  induction topics as [|route rest IH]; intros a; [split; reflexivity|].
  cbn [write_trace].
  destruct (_encode_event self event (filter route)) as [[[|b q]|]|x];
    cbn [truthy].
  - specialize (IH a). destruct (write_trace self event rest a) as [[r eff] a'].
    destruct IH as [F O]. cbn [evaluated List.length map firstn].
    split; [congruence|]. destruct r; [congruence|trivial].
  - destruct a as [|[e|] a'].
    + specialize (IH (tl [])).
      destruct (write_trace self event rest (tl [])) as [[r eff] a'].
      destruct IH as [F O]. cbn [evaluated List.length map firstn].
      split; [congruence|]. destruct r; [congruence|trivial].
    + split; [reflexivity|trivial].
    + specialize (IH (tl (None :: a'))).
      destruct (write_trace self event rest (tl (None :: a')))
        as [[r eff] a''].
      destruct IH as [F O]. cbn [evaluated List.length map firstn].
      split; [congruence|]. destruct r; [congruence|trivial].
  - specialize (IH a). destruct (write_trace self event rest a) as [[r eff] a'].
    destruct IH as [F O]. cbn [evaluated List.length map firstn].
    split; [congruence|]. destruct r; [congruence|trivial].
  - split; [reflexivity|trivial].
Qed.

Lemma encode_event_ext self1 self2 event f1 f2 :
  (forall new, new_state (data event) = Some new ->
     _entities_filter self1 (entity_id new)
     = _entities_filter self2 (entity_id new)
     /\ f1 (entity_id new) = f2 (entity_id new)) ->
  _encode_event self1 event f1 = _encode_event self2 event f2.
Proof.
  intros H. unfold _encode_event.
  destruct (new_state (data event)) as [new|]; trivial.
  destruct (H new eq_refl) as [-> ->]. reflexivity.
Qed.

Lemma write_trace_ext self1 self2 event topics :
  _entities_filter self1 = _entities_filter self2 ->
  forall a,
    write_trace self1 event topics a = write_trace self2 event topics a.
Proof.
  intros G. induction topics as [|route rest IH]; intros a; trivial.
  cbn [write_trace].
  rewrite (encode_event_ext self1 self2 event (filter route) (filter route))
    by (intros; rewrite G; auto).
  destruct (_encode_event self2 event (filter route)) as [[[|b q]|]|x];
    cbn [truthy]; rewrite ?IH; trivial.
Qed.

End ManagerFacts.

(* ================================================================== *)
(** * The claims *)
(* ================================================================== *)

Import Py Json Text Hass KafkaManager Observe Scenario.
Import StrFacts NumFacts ValueFacts PayloadFacts ManagerFacts.

(** ** The payload *)

Lemma encoder_answers_datetime d :
  exists s, DateTimeJSONEncoder.encode (PyDatetime d) = Ok s.
Proof. eexists. reflexivity. Qed.

Lemma str_eqb_refl s : str_eqb s s = true.
Proof. apply str_eqb_eq. reflexivity. Qed.

(** A state whose attributes are representable has a payload, and the
    payload reads back as the dictionary of the state. *)
Lemma payload_reads_back new :
  forallb (fun kv => representable (snd kv)) (attributes new) = true ->
  exists p,
    payload_of new = Ok p
    /\ p <> []
    /\ loads p = Some (decoded DateTimeJSONEncoder.encode (as_dict new)).
Proof.
  intros R.
  assert (Rd : representable (as_dict new) = true).
  { cbn [as_dict representable forallb snd]. rewrite R. reflexivity. }
  destruct (iterencode_total DateTimeJSONEncoder.encode
              encoder_answers_datetime (as_dict new) Rd) as [text E].
  destruct (loads_dumps DateTimeJSONEncoder.encode (as_dict new) text Rd E)
    as (p & U & NE & L).
  exists p. unfold payload_of, dumps, JSONEncoder_encode.
  rewrite E. cbn [rbind]. auto.
Qed.

Lemma encode_event_passed self event f new :
  new_state (data event) = Some new ->
  str_eqb (state new) [] = false ->
  str_eqb (state new) STATE_UNKNOWN = false ->
  str_eqb (state new) STATE_UNAVAILABLE = false ->
  _entities_filter self (entity_id new) = true ->
  f (entity_id new) = true ->
  _encode_event self event f = rbind (payload_of new) (fun p => Ok (Some p)).
Proof.
  intros N S1 S2 S3 G F. unfold _encode_event, payload_of.
  rewrite N, str_in_sentinels, S1, S2, S3, G, F. cbn [orb negb].
  destruct (dumps (as_dict new) DateTimeJSONEncoder.encode); reflexivity.
Qed.



(** C2.  [_encode_event] returns the skip exactly when the new state is
    absent, or the state value is the empty string, [unknown] or
    [unavailable], or the entity identifier fails the global filter, or
    it fails the per-destination filter.  In particular an event without
    a new state is skipped whatever the filters are, and an entity that
    the global filter excludes is skipped whatever the per-destination
    filter says. *)
Theorem C2_encode_event_skips self event f :
  (_encode_event self event f = Ok None
   <-> new_state (data event) = None
       \/ exists new,
            new_state (data event) = Some new
            /\ (state new = []
                \/ state new = STATE_UNKNOWN
                \/ state new = STATE_UNAVAILABLE
                \/ _entities_filter self (entity_id new) = false
                \/ f (entity_id new) = false))
  /\ (new_state (data event) = None -> _encode_event self event f = Ok None)
  /\ (forall new,
        new_state (data event) = Some new ->
        _entities_filter self (entity_id new) = false ->
        _encode_event self event f = Ok None).
Proof.
  assert (Skip : forall new,
             new_state (data event) = Some new ->
             (state new = []
              \/ state new = STATE_UNKNOWN
              \/ state new = STATE_UNAVAILABLE
              \/ _entities_filter self (entity_id new) = false
              \/ f (entity_id new) = false) ->
             _encode_event self event f = Ok None).
  { intros new N H. unfold _encode_event. rewrite N, str_in_sentinels.
    destruct H as [H|[H|[H|[H|H]]]]; try rewrite H;
      rewrite ?str_eqb_refl, ?orb_true_r; reflexivity. }
  split; [split|split].
  - intros E. destruct (new_state (data event)) as [new|] eqn:N; [|auto].
    right. exists new. split; trivial.
    destruct (str_eqb (state new) []) eqn:S1;
      [apply str_eqb_eq in S1; auto|].
    destruct (str_eqb (state new) STATE_UNKNOWN) eqn:S2;
      [apply str_eqb_eq in S2; auto|].
    destruct (str_eqb (state new) STATE_UNAVAILABLE) eqn:S3;
      [apply str_eqb_eq in S3; auto|].
    destruct (_entities_filter self (entity_id new)) eqn:G; [|auto].
    destruct (f (entity_id new)) eqn:F; [|auto 6].
    rewrite (encode_event_passed self event f new) in E by trivial.
    destruct (payload_of new); discriminate E.
  - intros [N|(new & N & H)]; [|apply (Skip new N H)].
    unfold _encode_event. rewrite N. reflexivity.
  - intros N. unfold _encode_event. rewrite N. reflexivity.
  - intros new N G. apply (Skip new N). auto.
Qed.

(** The text of a date and time needs no escape. *)
Lemma digits_plain ds :
  forallb is_digit ds = true -> flat_map escape_char ds = ds.
Proof.
  induction ds as [|c ds IH]; trivial. cbn [forallb flat_map].
  intros H. apply andb_true_iff in H as [D H]. rewrite (IH H).
  unfold escape_char.
  replace (ESCAPE_ASCII c) with false; trivial.
  revert D. unfold is_digit, ESCAPE_ASCII. ncmp; discriminate.
Qed.

Lemma zero_pad_digits w n : forallb is_digit (zero_pad w n) = true.
Proof.
  unfold zero_pad, repr_N. rewrite forallb_app, chars_of_uint_digits.
  rewrite andb_true_r. induction (w - _)%nat; trivial.
Qed.

Lemma flat_map_escape_app a b :
  flat_map escape_char (a ++ b)
  = flat_map escape_char a ++ flat_map escape_char b.
Proof. apply flat_map_app. Qed.

Lemma isoformat_plain d : flat_map escape_char (isoformat d) = isoformat d.
Proof.
  unfold isoformat, _format_time, _format_offset.
  destruct (utcoffset d) as [o|];
    repeat (rewrite flat_map_escape_app
            || rewrite (digits_plain _ (zero_pad_digits _ _))
            || (progress cbn [flat_map app]));
    repeat match goal with
           | |- context [if ?b then _ else _] => destruct b
           end;
    cbn [flat_map app];
    repeat (rewrite flat_map_escape_app
            || rewrite (digits_plain _ (zero_pad_digits _ _))
            || (progress cbn [flat_map app]));
    reflexivity.
Qed.

Lemma ascii_unicode_text s : ascii_text s = true -> unicode_text s = true.
Proof.
  induction s as [|c s IH]; trivial. cbn [ascii_text unicode_text forallb].
  intros H. apply andb_true_iff in H as [A H].
  fold (unicode_text s). rewrite (IH H), andb_true_r.
  revert A. unfold is_ascii, is_scalar. ncmp; discriminate.
Qed.

(** What the hook of [_encode_event] makes of a date and time: the JSON
    text of its ISO-8601 form, quotes included, which the encoder then
    writes as a string. *)
Lemma datetime_decoded d :
  DateTimeJSONEncoder.encode (PyDatetime d) = Ok (34 :: isoformat d ++ [34])%N
  /\ decoded DateTimeJSONEncoder.encode (PyDatetime d)
     = JStr (34 :: isoformat d ++ [34])%N.
Proof.
  assert (E : DateTimeJSONEncoder.encode (PyDatetime d)
              = Ok (34 :: isoformat d ++ [34])%N).
  { unfold DateTimeJSONEncoder.encode, JSONEncoder_encode.
    cbn [_iterencode DateTimeJSONEncoder.default rbind].
    unfold py_encode_basestring_ascii. rewrite isoformat_plain. reflexivity. }
  split; trivial. cbn [decoded]. rewrite E. f_equal.
  apply reread_unicode_text, ascii_unicode_text.
  pose proof (encode_basestring_ascii (isoformat d)) as A.
  unfold py_encode_basestring_ascii in A. rewrite isoformat_plain in A.
  exact A.
Qed.

(** C1.  The event of the scenario carries the attribute [since], a date
    and time.  Its payload decodes to an object whose [since] is the
    ISO-8601 text of the value between two quote characters: the string
    was encoded twice.  It is not the ISO-8601 text itself. *)
Theorem C1_datetime_attribute_is_quoted_twice :
  exists p obj attrs,
    _encode_event manager changed everything = Ok (Some p)
    /\ loads p = Some (JObj obj)
    /\ dict_get obj (lit "attributes") = Some (JObj attrs)
    /\ dict_get attrs (lit "since")
       = Some (JStr (34 :: isoformat noon ++ [34])%N)
    /\ dict_get attrs (lit "since") <> Some (JStr (isoformat noon)).
Proof.
  eexists. eexists. eexists.
  split; [vm_compute; reflexivity|].
  split; [vm_compute; reflexivity|].
  split; [vm_compute; reflexivity|].
  split; [vm_compute; reflexivity|].
  vm_compute. discriminate.
Qed.

(** ** Counting effects *)

Lemma sends_app a b : sends (a ++ b) = sends a ++ sends b.
Proof.
  induction a as [|[| |[| |]| | |] a IH]; cbn [app sends]; rewrite ?IH;
    reflexivity.
Qed.

Lemma stops_app a b : stops (a ++ b) = (stops a + stops b)%nat.
Proof.
  induction a as [|[| |[| |]| | |] a IH]; cbn [app stops]; rewrite ?IH;
    reflexivity.
Qed.

Lemma starts_app a b : starts (a ++ b) = (starts a + starts b)%nat.
Proof.
  induction a as [|[| |[| |]| | |] a IH]; cbn [app starts]; rewrite ?IH;
    reflexivity.
Qed.

Lemma listens_app a b : listens (a ++ b) = (listens a + listens b)%nat.
Proof.
  induction a as [|[| |[| |]| | |] a IH]; cbn [app listens]; rewrite ?IH;
    reflexivity.
Qed.

(** ** The fan-out *)

(** The run of [write] when the state encodes to [p] and the connection
    acknowledges the sends. *)
Lemma write_acknowledged self event p l a :
  (forall new, new_state (data event) = Some new -> payload_of new = Ok p) ->
  acknowledges (List.length (qualifying self event (_topics self))) a = true ->
  write event {| self := self; world := {| log := l; answers := a |} |}
  = (Ok tt,
     {| self := self;
        world :=
          {| log := l ++ flat_map (route_effects self event p) (_topics self);
             answers :=
               skipn (List.length (qualifying self event (_topics self))) a
          |} |}).
Proof.
  intros P A. rewrite write_run. cbn [KafkaManager.self world log answers].
  rewrite (write_trace_acked self event p P (_topics self) a A). reflexivity.
Qed.

(** C3, as amended.  When the state of the event encodes without error
    and the connection acknowledges each send, one invocation of [write]
    returns normally and its effects are, route after route in the order
    of the table, the mark of the route and, for a route the event
    qualifies for, the send to its topic followed at once by the
    acknowledgment; so there are exactly as many sends as qualifying
    routes, one for each, in the order of the table, each acknowledged
    before the next route is taken up. *)
Theorem C3_write_sends_to_qualifying_routes self event p l a :
  (forall new, new_state (data event) = Some new -> payload_of new = Ok p) ->
  acknowledges (List.length (qualifying self event (_topics self))) a = true ->
  exists eff,
    write event {| self := self; world := {| log := l; answers := a |} |}
    = (Ok tt,
       {| self := self;
          world :=
            {| log := l ++ eff;
               answers :=
                 skipn (List.length (qualifying self event (_topics self))) a
            |} |})
    /\ eff = flat_map (route_effects self event p) (_topics self)
    /\ sends eff
       = map (fun route => (topic route, p))
             (qualifying self event (_topics self))
    /\ List.length (sends eff)
       = List.length (qualifying self event (_topics self)).
Proof.
  intros P A. eexists. split; [apply (write_acknowledged _ _ p); trivial|].
  split; [reflexivity|]. rewrite sends_route_effects.
  split; [reflexivity|apply length_map].
Qed.

Lemma scenario_payload new :
  new_state (data changed) = Some new -> payload_of new = Ok payload.
Proof. intros H. inversion H. vm_compute. reflexivity. Defined.

Lemma C3_write_sends_to_qualifying_routes_witness :
  (forall new,
     new_state (data changed) = Some new -> payload_of new = Ok payload)
  /\ acknowledges (List.length (qualifying manager changed (_topics manager)))
                  (answers quiet) = true
  /\ exists eff,
      write changed
        {| self := manager;
           world := {| log := log quiet; answers := answers quiet |} |}
      = (Ok tt,
         {| self := manager;
            world :=
              {| log := log quiet ++ eff;
                 answers :=
                   skipn (List.length
                            (qualifying manager changed (_topics manager)))
                         (answers quiet) |} |})
      /\ eff = flat_map (route_effects manager changed payload)
                        (_topics manager)
      /\ sends eff
         = map (fun route => (topic route, payload))
               (qualifying manager changed (_topics manager))
      /\ List.length (sends eff)
         = List.length (qualifying manager changed (_topics manager)).
Proof.
  split; [exact scenario_payload|]. split; [reflexivity|].
  apply (C3_write_sends_to_qualifying_routes manager changed payload
           (log quiet) (answers quiet));
    [exact scenario_payload|reflexivity].
Defined.

(** The event of the scenario qualifies for both routes of [fanout]; the
    connection fails the first send; [write] raises and a single send
    has been issued, not two. *)
Lemma C3_counterexample :
  List.length (qualifying fanout changed (_topics fanout)) = 2%nat
  /\ fst (write changed {| self := fanout; world := failing |})
     = Raise KafkaError
  /\ sends (log (world (snd (write changed
                               {| self := fanout; world := failing |}))))
     = [(lit "t1", payload)]
  /\ List.length
       (sends (log (world (snd (write changed
                                  {| self := fanout; world := failing |})))))
     <> List.length (qualifying fanout changed (_topics fanout)).
Proof. vm_compute. repeat split. discriminate. Qed.

(** C5.  When the connection fails the send for a route, after having
    acknowledged the sends before it, [write] raises the error of the
    connection; its effects end with that send, so that no route after
    it is taken up and no send is issued for it; the manager is as it
    was.  A later invocation of [write], for any event, has the result
    and the effects it has in any world whose connection has the same
    answers left: nothing of the failure stays behind in the manager. *)
Theorem C5_write_propagates_failed_send
    self event p l pre route post e a' :
  _topics self = pre ++ route :: post ->
  (forall new, new_state (data event) = Some new -> payload_of new = Ok p) ->
  qualifies self event route = true ->
  exists eff s1,
    write event
      {| self := self;
         world :=
           {| log := l;
              answers :=
                repeat None (List.length (qualifying self event pre))
                ++ Some e :: a' |} |}
    = (Raise e, s1)
    /\ s1 = {| self := self;
               world := {| log := l ++ eff; answers := a' |} |}
    /\ eff = flat_map (route_effects self event p) pre
             ++ [Evaluate (topic route);
                 Invoke (SendAndWait (topic route) p); Raised e]
    /\ sends eff
       = map (fun r => (topic r, p)) (qualifying self event pre)
         ++ [(topic route, p)]
    /\ evaluated eff = map topic pre ++ [topic route]
    /\ forall event2 l2,
         exists r2 eff2 a2,
           write event2 s1
           = (r2, {| self := self;
                     world := {| log := log (world s1) ++ eff2;
                                 answers := a2 |} |})
           /\ write event2
                {| self := self; world := {| log := l2; answers := a' |} |}
              = (r2, {| self := self;
                        world := {| log := l2 ++ eff2; answers := a2 |} |}).
Proof.
  intros T P Q. eexists. eexists.
  split.
  { rewrite write_run. cbn [KafkaManager.self world log answers].
    rewrite T, (write_trace_failed self event p P pre route post e a' Q).
    reflexivity. }
  split; [reflexivity|]. split; [reflexivity|].
  split.
  { rewrite sends_app, sends_route_effects. reflexivity. }
  split.
  { clear. induction pre as [|r pre IH]; [reflexivity|].
    cbn [flat_map map app]. unfold route_effects at 1.
    destruct (qualifies self event r); cbn [app evaluated]; rewrite <- IH;
      reflexivity. }
  intros event2 l2. rewrite !write_run.
  cbn [KafkaManager.self world log answers].
  destruct (write_trace self event2 (_topics self) a') as [[r2 eff2] a2].
  exists r2, eff2, a2. split; reflexivity.
Qed.

Lemma C5_write_propagates_failed_send_witness :
  _topics fanout = [] ++ t1 :: [t3]
  /\ (forall new,
        new_state (data changed) = Some new -> payload_of new = Ok payload)
  /\ qualifies fanout changed t1 = true
  /\ exists eff s1,
      write changed
        {| self := fanout;
           world :=
             {| log := [];
                answers :=
                  repeat None (List.length (qualifying fanout changed []))
                  ++ Some KafkaError :: [] |} |}
      = (Raise KafkaError, s1)
      /\ s1 = {| self := fanout;
                 world := {| log := [] ++ eff; answers := [] |} |}
      /\ eff = flat_map (route_effects fanout changed payload) []
               ++ [Evaluate (topic t1);
                   Invoke (SendAndWait (topic t1) payload);
                   Raised KafkaError]
      /\ sends eff
         = map (fun r => (topic r, payload)) (qualifying fanout changed [])
           ++ [(topic t1, payload)]
      /\ evaluated eff = map topic [] ++ [topic t1]
      /\ forall event2 l2,
           exists r2 eff2 a2,
             write event2 s1
             = (r2, {| self := fanout;
                       world := {| log := log (world s1) ++ eff2;
                                   answers := a2 |} |})
             /\ write event2
                  {| self := fanout;
                     world := {| log := l2; answers := [] |} |}
                = (r2, {| self := fanout;
                          world := {| log := l2 ++ eff2;
                                      answers := a2 |} |}).
Proof.
  split; [reflexivity|]. split; [exact scenario_payload|].
  split; [reflexivity|].
  apply (C5_write_propagates_failed_send fanout changed payload []
           [] t1 [t3] KafkaError []);
    try reflexivity; exact scenario_payload.
Defined.

(** ** The life cycle *)

Lemma start_run s :
  start s
  = match answers (world s) with
    | Some e :: rest =>
      (Raise e,
       {| self := KafkaManager.self s;
          world :=
            {| log := log (world s)
                      ++ [Listen EVENT_STATE_CHANGED HWrite;
                          Invoke ProducerStart; Raised e];
               answers := rest |} |})
    | a =>
      (Ok tt,
       {| self := KafkaManager.self s;
          world :=
            {| log := log (world s)
                      ++ [Listen EVENT_STATE_CHANGED HWrite;
                          Invoke ProducerStart; Returned];
               answers := tl a |} |})
    end.
Proof.
  destruct s as [me [l a]]. unfold start.
  destruct a as [|[e|] a'];
    cbn [bind emit await KafkaManager.self world log answers tl];
    rewrite <- List.app_assoc; reflexivity.
Qed.

Lemma shutdown_run ev s :
  shutdown ev s
  = match answers (world s) with
    | Some e :: rest =>
      (Raise e,
       {| self := KafkaManager.self s;
          world :=
            {| log := log (world s) ++ [Invoke ProducerStop; Raised e];
               answers := rest |} |})
    | a =>
      (Ok tt,
       {| self := KafkaManager.self s;
          world :=
            {| log := log (world s) ++ [Invoke ProducerStop; Returned];
               answers := tl a |} |})
    end.
Proof.
  destruct s as [me [l a]]. unfold shutdown, await.
  cbn [KafkaManager.self world log answers].
  destruct a as [|[e|] a']; reflexivity.
Qed.

(** Every call leaves the manager as it was and only adds effects. *)
Lemma run_op_frame op s :
  KafkaManager.self (snd (run_op op s)) = KafkaManager.self s
  /\ exists eff, log (world (snd (run_op op s))) = log (world s) ++ eff.
Proof.
  destruct op as [|event|event]; cbn [run_op].
  - rewrite start_run. destruct (answers (world s)) as [|[e|] a'];
      cbn [snd KafkaManager.self world log]; split; trivial; eexists;
      reflexivity.
  - rewrite write_run.
    destruct (write_trace _ _ _ _) as [[r eff] a'].
    cbn [snd KafkaManager.self world log]. split; trivial. eexists.
    reflexivity.
  - rewrite shutdown_run. destruct (answers (world s)) as [|[e|] a'];
      cbn [snd KafkaManager.self world log]; split; trivial; eexists;
      reflexivity.
Qed.

Lemma run_ops_frame ops :
  forall s,
    KafkaManager.self (snd (run_ops ops s)) = KafkaManager.self s
    /\ exists eff, log (world (snd (run_ops ops s))) = log (world s) ++ eff.
Proof.
  induction ops as [|op ops IH]; intros s.
  - split; trivial. exists []. cbn. rewrite List.app_nil_r. reflexivity.
  - cbn [run_ops]. destruct (run_op_frame op s) as [S1 [eff1 L1]].
    destruct (run_op op s) as [r s1]. cbn [snd] in *.
    destruct (IH s1) as [S2 [eff2 L2]].
    destruct (run_ops ops s1) as [rs s2]. cbn [snd] in *.
    split; [congruence|]. exists (eff1 ++ eff2).
    rewrite L2, L1, List.app_assoc. reflexivity.
Qed.

(** C6, as amended.  The manager keeps no record of having been started:
    a second call of [start] is not refused.  It registers [write] as a
    listener once more and calls the connection's [start] once more, and
    it returns normally unless the connection raises. *)
Theorem C6_start_twice_registers_twice s :
  let '(r1, s1) := start s in
  let '(r2, s2) := start s1 in
  KafkaManager.self s2 = KafkaManager.self s
  /\ listens (log (world s2)) = (2 + listens (log (world s)))%nat
  /\ starts (log (world s2)) = (2 + starts (log (world s)))%nat
  /\ r2 = match answers (world s1) with
          | Some e :: _ => Raise e
          | _ => Ok tt
          end.
Proof.
  rewrite start_run.
  destruct (answers (world s)) as [|[e|] a']; rewrite start_run;
    cbn [KafkaManager.self world log answers tl];
    try (destruct a' as [|[e'|] a'']);
    cbn [KafkaManager.self world log answers tl];
    rewrite !listens_app, !starts_app; cbn [listens starts];
    repeat split; lia.
Qed.

(** Started twice on a connection that completes every call, the manager
    of the scenario has two listeners registered and has started the
    connection twice, and neither call was refused. *)
Lemma C6_counterexample :
  fst (run_ops [OpStart; OpStart] {| self := manager; world := quiet |})
  = [Ok tt; Ok tt]
  /\ log (world (snd (run_ops [OpStart; OpStart]
                        {| self := manager; world := quiet |})))
     = [Listen EVENT_STATE_CHANGED HWrite; Invoke ProducerStart; Returned;
        Listen EVENT_STATE_CHANGED HWrite; Invoke ProducerStart; Returned]
  /\ listens (log (world (snd (run_ops [OpStart; OpStart]
                                 {| self := manager; world := quiet |}))))
     = 2%nat
  /\ starts (log (world (snd (run_ops [OpStart; OpStart]
                                {| self := manager; world := quiet |}))))
     = 2%nat.
Proof. repeat split. Qed.

(** C7, as amended.  [start] does not call the connection's [stop].
    Every call of [shutdown], the first or a later one, calls it once,
    and returns normally or raises as that call does.  So [stop] has
    been called once after [start] and [shutdown], and once more after
    each further [shutdown]; whether a repeated [stop] does anything, or
    raises, is for the connection to say. *)
Theorem C7_shutdown_stops_every_time s ev :
  stops (log (world (snd (start s)))) = stops (log (world s))
  /\ let '(r, s1) := shutdown ev s in
     KafkaManager.self s1 = KafkaManager.self s
     /\ stops (log (world s1)) = S (stops (log (world s)))
     /\ r = match answers (world s) with
            | Some e :: _ => Raise e
            | _ => Ok tt
            end.
Proof.
  rewrite start_run, shutdown_run.
  destruct (answers (world s)) as [|[e|] a'];
    cbn [snd KafkaManager.self world log];
    rewrite !stops_app; cbn [stops]; repeat split; lia.
Qed.

(** After [start] and two calls of [shutdown] on a connection that
    completes every call, the connection's [stop] has been called twice:
    the second [shutdown] called it again. *)
Lemma C7_counterexample :
  log (world (snd (run_ops
                     [OpStart; OpShutdown stop_event; OpShutdown stop_event]
                     {| self := manager; world := quiet |})))
  = [Listen EVENT_STATE_CHANGED HWrite; Invoke ProducerStart; Returned;
     Invoke ProducerStop; Returned;
     Invoke ProducerStop; Returned]
  /\ stops (log (world (snd (run_ops
                               [OpStart; OpShutdown stop_event;
                                OpShutdown stop_event]
                               {| self := manager; world := quiet |}))))
     = 2%nat.
Proof. split; reflexivity. Qed.

(** C9.  The constructor stores the route table and the global filter
    it is given.  No call on the manager changes the manager, so the
    routes, their order, their filters and the global filter stay as
    constructed.  Every invocation of [write] takes up the routes in the
    order of the table: the routes it takes up are an initial stretch of
    the table, and the whole table when it returns normally. *)
Theorem C9_routes_and_filters_are_fixed :
  (forall ip port topics entities_filter protocol username password,
     _topics (__init__ ip port topics entities_filter protocol
                username password) = topics
     /\ _entities_filter (__init__ ip port topics entities_filter protocol
                            username password) = entities_filter)
  /\ (forall ops s,
        KafkaManager.self (snd (run_ops ops s)) = KafkaManager.self s)
  /\ (forall event s,
        exists eff,
          log (world (snd (write event s))) = log (world s) ++ eff
          /\ evaluated eff
             = firstn (List.length (evaluated eff))
                      (map topic (_topics (KafkaManager.self s)))
          /\ match fst (write event s) with
             | Ok _ =>
               evaluated eff = map topic (_topics (KafkaManager.self s))
             | Raise _ => True
             end).
Proof.
  split; [intros; split; reflexivity|].
  split; [intros ops s; apply run_ops_frame|].
  intros event s. rewrite write_run.
  pose proof (evaluated_write_trace (KafkaManager.self s) event
                (_topics (KafkaManager.self s)) (answers (world s))) as H.
  destruct (write_trace _ _ _ _) as [[r eff] a'].
  exists eff. cbn [fst snd world log]. destruct H as [F O]. auto.
Qed.

(** C10, as amended.  The result of [_encode_event] is settled by the
    event and by what the two filters say of its entity; nothing else of
    the manager or of the world enters.  The effects of [write], and so
    its sends, are settled by the event, the filters, the route table
    and the answers of the connection: two managers with the same global
    filter and the same routes, in worlds whose connections answer
    alike, have the same result and the same effects, whatever happened
    before and wherever their producers point. *)
Theorem C10_write_is_determined self1 self2 event l1 l2 a :
  _entities_filter self1 = _entities_filter self2 ->
  _topics self1 = _topics self2 ->
  (forall f1 f2,
     (forall new, new_state (data event) = Some new ->
        f1 (entity_id new) = f2 (entity_id new)) ->
     _encode_event self1 event f1 = _encode_event self2 event f2)
  /\ exists r eff a',
      write event
        {| self := self1; world := {| log := l1; answers := a |} |}
      = (r, {| self := self1;
               world := {| log := l1 ++ eff; answers := a' |} |})
      /\ write event
           {| self := self2; world := {| log := l2; answers := a |} |}
         = (r, {| self := self2;
                  world := {| log := l2 ++ eff; answers := a' |} |}).
Proof.
  intros G T. split.
  - intros f1 f2 H. apply encode_event_ext. intros new N.
    rewrite G. split; [reflexivity|apply H, N].
  - rewrite !write_run. cbn [KafkaManager.self world log answers].
    rewrite <- T, <- (write_trace_ext self1 self2 event (_topics self1) G a).
    destruct (write_trace self1 event (_topics self1) a) as [[r eff] a'].
    exists r, eff, a'. split; reflexivity.
Qed.

Lemma C10_write_is_determined_witness :
  _entities_filter fanout = _entities_filter fanout'
  /\ _topics fanout = _topics fanout'
  /\ (forall f1 f2,
        (forall new, new_state (data changed) = Some new ->
           f1 (entity_id new) = f2 (entity_id new)) ->
        _encode_event fanout changed f1 = _encode_event fanout' changed f2)
  /\ exists r eff a',
      write changed
        {| self := fanout;
           world := {| log := []; answers := [Some KafkaError] |} |}
      = (r, {| self := fanout;
               world := {| log := [] ++ eff; answers := a' |} |})
      /\ write changed
           {| self := fanout';
              world := {| log := [Listen EVENT_STATE_CHANGED HWrite];
                          answers := [Some KafkaError] |} |}
         = (r, {| self := fanout';
                  world :=
                    {| log := [Listen EVENT_STATE_CHANGED HWrite] ++ eff;
                       answers := a' |} |}).
Proof.
  split; [reflexivity|]. split; [reflexivity|].
  apply (C10_write_is_determined fanout fanout' changed []
           [Listen EVENT_STATE_CHANGED HWrite] [Some KafkaError]);
    reflexivity.
Defined.

(** The same manager, the same event, the same filters and the same
    routes: on a connection that acknowledges, two sends; on a connection
    that fails the first send, one. *)
Lemma C10_counterexample :
  sends (log (world (snd (write changed
                            {| self := fanout; world := quiet |}))))
  = [(lit "t1", payload); (lit "t3", payload)]
  /\ sends (log (world (snd (write changed
                               {| self := fanout; world := failing |}))))
     = [(lit "t1", payload)]
  /\ sends (log (world (snd (write changed
                               {| self := fanout; world := quiet |}))))
     <> sends (log (world (snd (write changed
                                  {| self := fanout; world := failing |})))).
Proof. vm_compute. repeat split. discriminate. Qed.

(** ** The scenarios of the spec *)

(** The event for [light.x] with state [on] is sent to [t1] only. *)
Example scenario_light_x :
  sends (log (world (snd (write changed
                            {| self := manager; world := quiet |}))))
  = [(lit "t1", payload)].
Proof. vm_compute. reflexivity. Qed.

(** An event whose state is [unavailable] is sent nowhere. *)
Example scenario_unavailable :
  sends (log (world (snd (write
      {| event_type := EVENT_STATE_CHANGED;
         data := {| data_entity_id := lit "light.x";
                    old_state := Some light_on;
                    new_state :=
                      Some {| entity_id := lit "light.x";
                              state := STATE_UNAVAILABLE;
                              attributes := [];
                              last_changed := noon;
                              last_updated := noon |} |} |}
      {| self := fanout; world := quiet |}))))
  = [].
Proof. vm_compute. reflexivity. Qed.

(** [async_setup] binds [shutdown] to the stop event of the hub and
    starts the manager. *)
Example scenario_setup :
  async_setup
    {| CONF_IP_ADDRESS := lit "broker"; CONF_PORT := 9092;
       CONF_TOPICS := [t1; t2]; CONF_FILTER := everything;
       CONF_SECURITY_PROTOCOL := lit "PLAINTEXT";
       CONF_USERNAME := None; CONF_PASSWORD := None |} quiet
  = (Ok true,
     {| self := manager;
        world :=
          {| log := [ListenOnce EVENT_HOMEASSISTANT_STOP HShutdown;
                     Listen EVENT_STATE_CHANGED HWrite;
                     Invoke ProducerStart; Returned];
             answers := [] |} |}).
Proof. reflexivity. Qed.

(* ================================================================== *)
(** * More of the code *)
(* ================================================================== *)

Import Further.

(** ** The encoder class *)

Section Raises.

(** A hook that answers for a date and time and raises [TypeError] for
    an object of any other class. *)
Variable hook : obj -> result str.
Hypothesis hook_datetime : forall d, exists s, hook (PyDatetime d) = Ok s.
Hypothesis hook_other : forall cls, hook (PyOther cls) = Raise TypeError.

Local Abbreviation enc := (_iterencode hook).

Local Abbreviation settled x :=
  (if contains_other x then enc x = Raise TypeError
   else exists text, enc x = Ok text).

Lemma iterencode_list_settled l :
  Forall (fun x => settled x) l ->
  if existsb contains_other l
  then _iterencode_list enc l = Raise TypeError
  else exists text, _iterencode_list enc l = Ok text.
Proof.
  induction 1 as [|y l Hy Hl IH]; [exists []; reflexivity|].
  cbn [existsb _iterencode_list].
  destruct (contains_other y); cbn [orb].
  - rewrite Hy. reflexivity.
  - destruct Hy as [a ->]. cbn [rbind].
    destruct (existsb contains_other l).
    + rewrite IH. reflexivity.
    + destruct IH as [b ->]. eexists. reflexivity.
Qed.

Lemma iterencode_dict_settled d :
  Forall (fun kv => settled (snd kv)) d ->
  if existsb (fun kv => contains_other (snd kv)) d
  then _iterencode_dict enc d = Raise TypeError
  else exists text, _iterencode_dict enc d = Ok text.
Proof.
  induction 1 as [|[k y] d Hy Hd IH]; [exists []; reflexivity|].
  cbn [existsb _iterencode_dict snd] in *.
  destruct (contains_other y); cbn [orb].
  - rewrite Hy. reflexivity.
  - destruct Hy as [a ->]. cbn [rbind].
    destruct (existsb (fun kv => contains_other (snd kv)) d).
    + rewrite IH. reflexivity.
    + destruct IH as [b ->]. eexists. reflexivity.
Qed.

Lemma iterencode_settled o : settled o.
Proof.
  induction o as [|b|z|r|s|l IH|d IH|d|cls] using obj_ind;
    cbn [contains_other _iterencode];
    try (eexists; reflexivity).
  - destruct b; eexists; reflexivity.
  - destruct l as [|x l]; [eexists; reflexivity|].
    inversion IH as [|? ? Hx Hl]. subst. cbn [existsb].
    pose proof (iterencode_list_settled l Hl) as L.
    destruct (contains_other x); cbn [orb].
    + rewrite Hx. reflexivity.
    + destruct Hx as [a ->]. cbn [rbind].
      destruct (existsb contains_other l).
      * rewrite L. reflexivity.
      * destruct L as [b ->]. eexists. reflexivity.
  - destruct d as [|[k x] d]; [eexists; reflexivity|].
    inversion IH as [|? ? Hx Hd]. subst. cbn [existsb snd] in *.
    pose proof (iterencode_dict_settled d Hd) as L.
    destruct (contains_other x); cbn [orb].
    + rewrite Hx. reflexivity.
    + destruct Hx as [a ->]. cbn [rbind].
      destruct (existsb (fun kv => contains_other (snd kv)) d).
      * rewrite L. reflexivity.
      * destruct L as [b ->]. eexists. reflexivity.
  - destruct (hook_datetime d) as [s ->]. eexists. reflexivity.
  - rewrite hook_other. reflexivity.
Qed.

End Raises.

Lemma default_datetime d :
  exists s, DateTimeJSONEncoder.default (PyDatetime d) = Ok s.
Proof. eexists. reflexivity. Qed.

Lemma default_other cls :
  DateTimeJSONEncoder.default (PyOther cls) = Raise TypeError.
Proof. reflexivity. Qed.

Lemma encode_other cls :
  DateTimeJSONEncoder.encode (PyOther cls) = Raise TypeError.
Proof. reflexivity. Qed.



(** ** What is read back, as a value *)

Section ReadBack.

Variable hook : obj -> result str.
Variable render : datetime -> str.
Hypothesis hook_render : forall d, hook (PyDatetime d) = Ok (render d).
Hypothesis render_text : forall d, unicode_text (render d) = true.

Lemma decoded_to_json o :
  representable o = true -> text_ok o = true ->
  decoded hook o = to_json render o.
Proof.
  induction o as [|b|z|r|s|l IH|d IH|d|cls] using obj_ind;
    cbn [representable text_ok decoded to_json]; intros R T;
    try reflexivity; try discriminate R.
  - rewrite (reread_unicode_text _ T). reflexivity.
  - f_equal. induction IH as [|x l Hx Hl IHl]; trivial.
    cbn [forallb map] in *.
    apply andb_true_iff in R as [Rx R]. apply andb_true_iff in T as [Tx T].
    rewrite (Hx Rx Tx), (IHl R T). reflexivity.
  - f_equal. induction IH as [|[k x] d Hx Hd IHd]; trivial.
    cbn [forallb map fst snd] in *.
    apply andb_true_iff in R as [Rx R]. apply andb_true_iff in T as [Tx T].
    apply andb_true_iff in Tx as [Tk Tx].
    rewrite (Hx Rx Tx), (IHd R T), (reread_unicode_text _ Tk). reflexivity.
  - rewrite hook_render, (reread_unicode_text _ (render_text d)). reflexivity.
Qed.

End ReadBack.

Lemma isoformat_ascii d : ascii_text (isoformat d) = true.
Proof.
  pose proof (encode_basestring_ascii (isoformat d)) as A.
  unfold py_encode_basestring_ascii in A. rewrite isoformat_plain in A.
  rewrite ascii_text_cons, ascii_text_app in A.
  apply andb_true_iff in A as [_ A]. apply andb_true_iff in A as [A _].
  exact A.
Qed.

Lemma isoformat_text d : unicode_text (isoformat d) = true.
Proof. apply ascii_unicode_text, isoformat_ascii. Qed.

Lemma quoted_isoformat_text d : unicode_text (quoted_isoformat d) = true.
Proof.
  apply ascii_unicode_text. unfold quoted_isoformat.
  rewrite ascii_text_cons, ascii_text_app, isoformat_ascii. reflexivity.
Qed.



(** ** The encoder of events, further *)

Lemma guard_passes self new f :
  str_in (state new) [STATE_UNKNOWN; []; STATE_UNAVAILABLE]
  || negb (_entities_filter self (entity_id new))
  || negb (f (entity_id new))
  = negb (passes self new f).
Proof.
  unfold passes. rewrite str_in_sentinels.
  destruct (str_eqb (state new) [] || str_eqb (state new) STATE_UNKNOWN
            || str_eqb (state new) STATE_UNAVAILABLE),
    (_entities_filter self (entity_id new)), (f (entity_id new));
    reflexivity.
Qed.

Lemma encode_event_guard self event f :
  _encode_event self event f
  = match new_state (data event) with
    | None => Ok None
    | Some new =>
      if passes self new f
      then rbind (payload_of new) (fun p => Ok (Some p))
      else Ok None
    end.
Proof.
  unfold _encode_event, payload_of.
  destruct (new_state (data event)) as [new|]; trivial.
  rewrite guard_passes. destruct (passes self new f); cbn [negb]; trivial.
  destruct (dumps (as_dict new) DateTimeJSONEncoder.encode); reflexivity.
Qed.

Lemma str_encode_utf8_error s e :
  str_encode_utf8 s = Raise e -> e = UnicodeEncodeError.
Proof.
  induction s as [|c s IH]; [discriminate|]. cbn [str_encode_utf8].
  assert (U : forall x, utf8_of_char c = Raise x -> x = UnicodeEncodeError).
  { unfold utf8_of_char. intros x.
    repeat match goal with
           | |- context [if ?b then _ else _] => destruct b
           end; intros H; inversion H; reflexivity. }
  destruct (utf8_of_char c) as [a|x]; cbn [rbind].
  - destruct (str_encode_utf8 s) as [b|y]; cbn [rbind]; [discriminate|].
    intros H. inversion H. subst. apply IH. reflexivity.
  - intros H. inversion H. subst. apply U. reflexivity.
Qed.

Lemma as_dict_contains_other new :
  contains_other (as_dict new)
  = existsb (fun kv => contains_other (snd kv)) (attributes new).
Proof.
  cbn [as_dict contains_other existsb snd orb]. apply orb_false_r.
Qed.

(** The payload of a state fails with [TypeError] exactly when an
    attribute holds an object of another class. *)
Lemma payload_of_type_error new :
  payload_of new = Raise TypeError
  <-> existsb (fun kv => contains_other (snd kv)) (attributes new) = true.
Proof.
  rewrite <- as_dict_contains_other. unfold payload_of, dumps,
    JSONEncoder_encode.
  pose proof (iterencode_settled DateTimeJSONEncoder.encode
                encoder_answers_datetime encode_other (as_dict new)) as H.
  destruct (contains_other (as_dict new)).
  - rewrite H. split; reflexivity.
  - destruct H as [text ->]. cbn [rbind]. split; [|discriminate].
    intros E. apply str_encode_utf8_error in E. discriminate E.
Qed.


Lemma byte_of_N_ascii c : (c <? 128)%N = true ->
  (Byte.to_N (byte_of_N c) <? 128)%N = true.
Proof.
  intros H. rewrite byte_of_N_to_N; trivial.
  apply N.ltb_lt in H. lia.
Qed.

Lemma payload_of_text new p :
  forallb (fun kv => representable (snd kv)) (attributes new) = true ->
  payload_of new = Ok p ->
  exists text,
    dumps (as_dict new) DateTimeJSONEncoder.encode = Ok text
    /\ ascii_text text = true
    /\ p = map byte_of_N text.
Proof.
  intros R E. unfold payload_of in E.
  apply rbind_ok in E as (text & D & U). exists text.
  assert (Rd : representable (as_dict new) = true).
  { cbn [as_dict representable forallb snd]. rewrite R. reflexivity. }
  pose proof (iterencode_ascii DateTimeJSONEncoder.encode (as_dict new) Rd
                text D) as A.
  destruct (utf8_ascii text A) as [U' _]. rewrite U' in U. inversion U.
  auto.
Qed.

(** X10.  A payload that [_encode_event] returns for a state with
    representable attributes holds no octet above [0x7f], whatever
    characters the entity identifier, the state value and the attributes
    contain: every character outside ASCII is written as an escape. *)
Theorem X10_payload_is_ascii self event f new p :
  new_state (data event) = Some new ->
  forallb (fun kv => representable (snd kv)) (attributes new) = true ->
  _encode_event self event f = Ok (Some p) ->
  ascii_bytes p = true.
Proof.
  intros N R E. rewrite encode_event_guard, N in E.
  destruct (passes self new f); [|discriminate].
  destruct (payload_of new) as [q|x] eqn:P; [|discriminate].
  inversion E. subst q.
  destruct (payload_of_text new p R P) as (text & _ & A & ->).
  clear - A. unfold ascii_bytes. induction text as [|c t IH]; trivial.
  cbn [ascii_text forallb map] in *. apply andb_true_iff in A as [Ac A].
  rewrite (byte_of_N_ascii c Ac). apply IH, A.
Qed.

Lemma X10_payload_is_ascii_witness :
  new_state (data smiled) = Some smiling
  /\ forallb (fun kv => representable (snd kv)) (attributes smiling) = true
  /\ _encode_event manager smiled everything
     = Ok (Some (match payload_of smiling with Ok p => p | Raise _ => [] end))
  /\ ascii_bytes (match payload_of smiling with Ok p => p | Raise _ => [] end)
     = true.
Proof.
  split; [reflexivity|]. split; [reflexivity|].
  split; [vm_compute; reflexivity|].
  apply (X10_payload_is_ascii manager smiled everything smiling);
    [reflexivity|reflexivity|vm_compute; reflexivity].
Defined.

Lemma encode_quotes_datetime d :
  DateTimeJSONEncoder.encode (PyDatetime d) = Ok (quoted_isoformat d).
Proof. apply datetime_decoded. Qed.



(** ** [write], whatever the connection answers *)

Lemma write_trace_type_error self event new topics a :
  new_state (data event) = Some new ->
  existsb (fun kv => contains_other (snd kv)) (attributes new) = true ->
  write_trace self event topics a
  = (if existsb (qualifies self event) topics then Raise TypeError else Ok tt,
     map (fun route => Evaluate (topic route))
         (through_first (qualifies self event) topics),
     a).
Proof.
  intros N C. apply payload_of_type_error in C.
  induction topics as [|route rest IH]; [reflexivity|].
  cbn [write_trace existsb through_first map].
  rewrite encode_event_route, N, C.
  destruct (qualifies self event route); cbn [rbind orb map].
  - reflexivity.
  - rewrite IH. reflexivity.
Qed.

Lemma invokes_marks (topics : list TopicAndFilters) :
  invokes (map (fun route => Evaluate (topic route)) topics) = 0%nat.
Proof. induction topics; trivial. Qed.



Lemma write_trace_skips self event topics a :
  qualifying self event topics = [] ->
  write_trace self event topics a
  = (Ok tt, map (fun route => Evaluate (topic route)) topics, a).
Proof.
  induction topics as [|route rest IH]; [reflexivity|].
  cbn [qualifying List.filter]. fold (qualifying self event rest).
  destruct (qualifies self event route) eqn:Q; [discriminate|]. intros E.
  cbn [write_trace map]. rewrite (encode_event_skipped _ _ _ Q), (IH E).
  reflexivity.
Qed.

(** X5.  When the event qualifies for no route of the table (it has no
    new state, or its state value is empty, [unknown] or [unavailable],
    or a filter turns its entity down on every route), [write] returns
    normally after taking up every route, makes no call on the
    connection and leaves its answers as they were; this holds whatever
    the attributes of the state are and whatever the connection would
    have answered. *)
Theorem X5_write_without_qualifying_route event s :
  qualifying (KafkaManager.self s) event (_topics (KafkaManager.self s))
  = [] ->
  exists eff,
    write event s
    = (Ok tt,
       {| self := KafkaManager.self s;
          world := {| log := log (world s) ++ eff;
                      answers := answers (world s) |} |})
    /\ eff = map (fun route => Evaluate (topic route))
                 (_topics (KafkaManager.self s))
    /\ invokes eff = 0%nat.
Proof.
  intros Q. eexists. rewrite write_run, (write_trace_skips _ _ _ _ Q).
  split; [reflexivity|]. split; [reflexivity|]. apply invokes_marks.
Qed.

Lemma X5_write_without_qualifying_route_witness :
  qualifying fanout gone (_topics fanout) = []
  /\ exists eff,
      write gone {| self := fanout; world := failing |}
      = (Ok tt,
         {| self := fanout;
            world := {| log := [] ++ eff;
                        answers := [Some KafkaError] |} |})
      /\ eff = [Evaluate (lit "t1"); Evaluate (lit "t3")]
      /\ invokes eff = 0%nat.
Proof.
  split; [reflexivity|].
  apply (X5_write_without_qualifying_route gone
           {| self := fanout; world := failing |}); reflexivity.
Defined.

Lemma encode_event_failed self event route new x :
  new_state (data event) = Some new ->
  payload_of new = Raise x ->
  qualifies self event route = true ->
  _encode_event self event (filter route) = Raise x.
Proof.
  intros N P Q. rewrite encode_event_route, Q, N, P. reflexivity.
Qed.

(** What holds of the effects of the loop of [write] on any table and
    any answers. *)
Lemma write_trace_bounds self event topics :
  forall a,
    let '(r, eff, a') := write_trace self event topics a in
    map fst (sends eff)
    = firstn (List.length (sends eff))
             (map topic (qualifying self event topics))
    /\ (forall tp, In tp (sends eff) ->
          exists new, new_state (data event) = Some new
                      /\ payload_of new = Ok (snd tp))
    /\ (r = Ok tt ->
        map fst (sends eff) = map topic (qualifying self event topics))
    /\ a' = skipn (List.length (sends eff)) a
    /\ invokes eff = List.length (sends eff)
    /\ listens eff = 0%nat
    /\ listens_once eff = 0%nat.
Proof.
  induction topics as [|route rest IH]; intros a.
  - cbn. repeat split; trivial. intros tp [].
  - cbn [write_trace qualifying List.filter].
    fold (qualifying self event rest).
    destruct (qualifies self event route) eqn:Q.
    + destruct (qualifies_new_state _ _ _ Q) as [new N].
      destruct (payload_of new) as [p|x] eqn:P.
      * rewrite (encode_event_qualified _ _ _ new p N P Q).
        rewrite (payload_of_truthy new p P).
        assert (Step : forall b,
          let '(r, eff, a') := write_trace self event rest b in
          forall eff0,
            eff0 = Evaluate (topic route)
                   :: Invoke (SendAndWait (topic route) p) :: Returned :: eff ->
            map fst (sends eff0)
            = firstn (List.length (sends eff0))
                (map topic (route :: qualifying self event rest))
            /\ (forall tp, In tp (sends eff0) ->
                  exists new, new_state (data event) = Some new
                              /\ payload_of new = Ok (snd tp))
            /\ (r = Ok tt ->
                map fst (sends eff0)
                = map topic (route :: qualifying self event rest))
            /\ a' = skipn (Nat.pred (List.length (sends eff0))) b
            /\ invokes eff0 = List.length (sends eff0)
            /\ listens eff0 = 0%nat
            /\ listens_once eff0 = 0%nat).
        { intros b. specialize (IH b).
          destruct (write_trace self event rest b) as [[r eff] a'].
          destruct IH as (F & I & O & A & V & L & L1). intros eff0 ->.
          cbn [sends map fst List.length firstn invokes listens
               listens_once Nat.pred].
          repeat split; trivial; try congruence.
          - intros tp [<-|H]; [exists new; auto|apply I, H].
          - intros R. rewrite (O R). reflexivity. }
        destruct a as [|[e|] a1].
        -- specialize (Step (tl [])).
           destruct (write_trace self event rest (tl [])) as [[r eff] a'].
           destruct (Step _ eq_refl) as (F & I & O & A & V & L & L1).
           repeat split; trivial. rewrite A. cbn [tl].
           rewrite !skipn_nil_opt. reflexivity.
        -- cbn [sends map fst List.length firstn skipn invokes listens
                listens_once].
           repeat split; trivial; try discriminate.
           intros tp [<-|[]]. exists new. auto.
        -- specialize (Step (tl (None :: a1))).
           destruct (write_trace self event rest (tl (None :: a1)))
             as [[r eff] a'].
           destruct (Step _ eq_refl) as (F & I & O & A & V & L & L1).
           repeat split; trivial.
      * rewrite (encode_event_failed _ _ _ new x N P Q).
        cbn. repeat split; trivial; try discriminate. intros tp [].
    + rewrite (encode_event_skipped _ _ _ Q). specialize (IH a).
      destruct (write_trace self event rest a) as [[r eff] a'].
      destruct IH as (F & I & O & A & V & L & L1).
      cbn [sends invokes listens listens_once]. repeat split; trivial.
Qed.

(** X6.  Whatever the connection answers, and whether [write] returns
    or raises: the topics it sends to are an initial stretch of the
    topics of the routes the event qualifies for, in the order of the
    table, so that no topic the event does not qualify for is sent to
    and no route is sent to twice; every payload it sends is the payload
    of the new state of the event, the same for every topic; and when
    [write] returns normally, every qualifying route has been sent to. *)
Theorem X6_write_sends_within_qualifying_routes event s :
  let '(r, s') := write event s in
  exists eff,
    log (world s') = log (world s) ++ eff
    /\ map fst (sends eff)
       = firstn (List.length (sends eff))
           (map topic (qualifying (KafkaManager.self s) event
                         (_topics (KafkaManager.self s))))
    /\ (forall tp, In tp (sends eff) ->
          exists new, new_state (data event) = Some new
                      /\ payload_of new = Ok (snd tp))
    /\ (r = Ok tt ->
        map fst (sends eff)
        = map topic (qualifying (KafkaManager.self s) event
                       (_topics (KafkaManager.self s)))).
Proof.
  rewrite write_run.
  pose proof (write_trace_bounds (KafkaManager.self s) event
                (_topics (KafkaManager.self s)) (answers (world s))) as H.
  destruct (write_trace _ _ _ _) as [[r eff] a'].
  destruct H as (F & I & O & _). exists eff. cbn [world log]. auto.
Qed.

Lemma invokes_split eff :
  invokes eff = (List.length (sends eff) + starts eff + stops eff)%nat.
Proof.
  induction eff as [|[et h|et h|[| |tp p]| |e|tp] eff IH];
    cbn [invokes sends starts stops List.length]; lia.
Qed.

(** X7.  Whatever the event and the answers of the connection, the only
    calls [write] makes on the connection are sends: it never starts or
    stops the connection and registers no listener.  It uses up one
    answer of the connection for each send and no other. *)
Theorem X7_write_only_sends event s :
  let '(r, s') := write event s in
  exists eff,
    log (world s') = log (world s) ++ eff
    /\ invokes eff = List.length (sends eff)
    /\ starts eff = 0%nat
    /\ stops eff = 0%nat
    /\ listens eff = 0%nat
    /\ listens_once eff = 0%nat
    /\ answers (world s')
       = skipn (List.length (sends eff)) (answers (world s)).
Proof.
  rewrite write_run.
  pose proof (write_trace_bounds (KafkaManager.self s) event
                (_topics (KafkaManager.self s)) (answers (world s))) as H.
  destruct (write_trace _ _ _ _) as [[r eff] a'].
  destruct H as (_ & _ & _ & A & V & L & L1). exists eff.
  cbn [world log answers]. repeat split; trivial.
  - pose proof (invokes_split eff). lia.
  - pose proof (invokes_split eff). lia.
Qed.

(** X12.  A payload that [_encode_event] returns is never empty: it
    begins with the opening brace of the dictionary of the state.  So
    the test [if payload:] in [write] holds for every payload and turns
    down the result [None] only. *)
Theorem X12_payload_is_never_empty self event f payload :
  _encode_event self event f = Ok payload ->
  truthy payload = match payload with Some _ => true | None => false end
  /\ forall p, payload = Some p -> exists rest, p = byte_of_N 123 :: rest.
Proof.
  rewrite encode_event_guard.
  destruct (new_state (data event)) as [new|].
  - destruct (passes self new f).
    + destruct (payload_of new) as [p|x] eqn:P; [|discriminate].
      intros E. inversion E. subst payload.
      split; [apply (payload_of_truthy new), P|].
      intros q Eq. inversion Eq. subst q. clear - P.
      unfold payload_of in P. apply rbind_ok in P as (text & D & U).
      apply dumps_dict_head in D as [t ->]; [|discriminate].
      cbn [str_encode_utf8] in U. apply rbind_ok in U as (a & Ea & U).
      apply rbind_ok in U as (b & _ & U). inversion Ea. inversion U.
      subst. eexists. reflexivity.
    + intros E. inversion E. split; [reflexivity|discriminate].
  - intros E. inversion E. split; [reflexivity|discriminate].
Qed.

Lemma X12_payload_is_never_empty_witness :
  _encode_event manager changed everything = Ok (Some payload)
  /\ truthy (Some payload) = true
  /\ forall p, Some payload = Some p -> exists rest, p = byte_of_N 123 :: rest.
Proof.
  split; [vm_compute; reflexivity|].
  apply (X12_payload_is_never_empty manager changed everything
           (Some payload)).
  vm_compute. reflexivity.
Defined.

(** ** The set-up and the whole life of a manager *)

Lemma async_setup_run conf w :
  async_setup conf w
  = match answers w with
    | Some e :: rest =>
      (Raise e,
       {| self := manager_of conf;
          world := {| log := log w ++ setup_effects ++ [Raised e];
                      answers := rest |} |})
    | a =>
      (Ok true,
       {| self := manager_of conf;
          world := {| log := log w ++ setup_effects ++ [Returned];
                      answers := tl a |} |})
    end.
Proof.
  unfold async_setup, manager_of, setup_effects, start.
  destruct w as [l a]. destruct a as [|[e|] a'];
    cbn [bind emit await ret KafkaManager.self world log answers tl app];
    rewrite <- !List.app_assoc; reflexivity.
Qed.


Lemma invokes_app a b : invokes (a ++ b) = (invokes a + invokes b)%nat.
Proof.
  induction a as [|[et h|et h|c| |e|tp] a IH]; cbn [app invokes]; lia.
Qed.

Lemma listens_once_app a b :
  listens_once (a ++ b) = (listens_once a + listens_once b)%nat.
Proof.
  induction a as [|[et h|et h|c| |e|tp] a IH]; cbn [app listens_once]; lia.
Qed.

(** Any number of invocations of [write], one after the other: only
    sends are added. *)
Lemma writes_frame events :
  forall s,
    exists mid,
      snd (run_ops (map OpWrite events) s)
      = {| self := KafkaManager.self s;
           world :=
             {| log := log (world s) ++ mid;
                answers := skipn (List.length (sends mid))
                                 (answers (world s)) |} |}
      /\ invokes mid = List.length (sends mid)
      /\ listens mid = 0%nat
      /\ listens_once mid = 0%nat.
Proof.
  induction events as [|event events IH]; intros s.
  - exists []. cbn. rewrite List.app_nil_r. destruct s as [me [l a]].
    repeat split.
  - cbn [map run_ops run_op]. rewrite write_run.
    pose proof (write_trace_bounds (KafkaManager.self s) event
                  (_topics (KafkaManager.self s)) (answers (world s))) as H.
    destruct (write_trace _ _ _ _) as [[r eff] a'].
    destruct H as (_ & _ & _ & A & V & L & L1).
    match goal with
    | |- context [run_ops _ ?s1] => destruct (IH s1) as (mid & E & V' & L' & L1')
    end.
    destruct (run_ops (map OpWrite events) _) as [rs s2].
    cbn [snd KafkaManager.self world log answers] in *.
    exists (eff ++ mid). rewrite E, A.
    rewrite sends_app, invokes_app, listens_app, listens_once_app,
      length_app, List.app_assoc, skipn_skipn.
    repeat split; try lia. do 3 f_equal. lia.
Qed.


(** ** The hub while [start] is suspended *)

Import Hub.

Lemma registrations_app a b :
  registrations (a ++ b) = (registrations a + registrations b)%nat.
Proof.
  induction a as [|[et [|]|et h|c| |e|tp] a IH]; cbn [app registrations];
    lia.
Qed.

(** With no event meanwhile, the two halves of the await are the await. *)
Lemma start_with_nil s : start_with [] s = start s.
Proof.
  destruct s as [me [l a]].
  unfold start_with, start_suspended, start, meanwhile, call, resume, await.
  destruct a as [|[e|] a'];
    cbn [bind emit fold_left KafkaManager.self world log answers];
    rewrite <- !List.app_assoc; reflexivity.
Qed.

Lemma invoke_write_run_ops n event :
  forall s,
    invoke_write n event s
    = snd (run_ops (map OpWrite (repeat event n)) s).
Proof.
  induction n as [|n IH]; intros s; [reflexivity|].
  cbn [invoke_write repeat map run_ops run_op]. rewrite IH.
  destruct (write event s) as [r s1]. cbn [snd].
  destruct (run_ops _ s1) as [rs s2]. reflexivity.
Qed.

(** An event that is fired only adds sends. *)
Lemma fire_frame event s :
  exists eff,
    fire event s
    = {| self := KafkaManager.self s;
         world :=
           {| log := log (world s) ++ eff;
              answers := skipn (List.length (sends eff))
                               (answers (world s)) |} |}
    /\ invokes eff = List.length (sends eff)
    /\ listens eff = 0%nat
    /\ listens_once eff = 0%nat.
Proof.
  unfold fire. destruct (str_eqb (event_type event) EVENT_STATE_CHANGED).
  - rewrite invoke_write_run_ops. apply writes_frame.
  - exists []. destruct s as [me [l a]]. cbn. rewrite List.app_nil_r.
    repeat split.
Qed.

Lemma meanwhile_frame events :
  forall s,
    exists eff,
      fold_left (fun s' event => fire event s') events s
      = {| self := KafkaManager.self s;
           world :=
             {| log := log (world s) ++ eff;
                answers := skipn (List.length (sends eff))
                                 (answers (world s)) |} |}
      /\ invokes eff = List.length (sends eff)
      /\ listens eff = 0%nat
      /\ listens_once eff = 0%nat.
Proof.
  induction events as [|event events IH]; intros s.
  - exists []. destruct s as [me [l a]]. cbn. rewrite List.app_nil_r.
    repeat split.
  - cbn [fold_left]. destruct (fire_frame event s) as (e1 & E1 & V1 & L1 & O1).
    destruct (IH (fire event s)) as (e2 & E2 & V2 & L2 & O2).
    rewrite E1 in E2 |- *. cbn [KafkaManager.self world log answers] in E2.
    exists (e1 ++ e2). rewrite E2.
    rewrite sends_app, invokes_app, listens_app, listens_once_app,
      length_app, List.app_assoc, skipn_skipn.
    repeat split; try lia. do 3 f_equal. lia.
Qed.

(** C8, as amended.  [start] first registers [write] as a listener for
    the state-changed event type, then calls the connection's [start],
    and returns only when the connection has answered: normally when the
    call has completed, raising when it raises.  Between the call and
    the answer [start] is suspended, and [write] is registered by then:
    an event that arrives meanwhile is handled by [write], and what it
    sends is sent before the connection is ready.  When no event arrives
    meanwhile nothing stands between the call and its answer, and every
    call made on the manager after [start] has returned only adds to the
    effects, so that the sends of later events come after the completed
    start. *)
Theorem C8_start_registers_before_the_connection_is_ready s during :
  let '(r, s1) := start_with during s in
  exists mid,
    KafkaManager.self s1 = KafkaManager.self s
    /\ log (world (snd (start_suspended during s)))
       = log (world s)
         ++ [Listen EVENT_STATE_CHANGED HWrite; Invoke ProducerStart] ++ mid
    /\ log (world s1)
       = log (world s)
         ++ [Listen EVENT_STATE_CHANGED HWrite; Invoke ProducerStart] ++ mid
         ++ [match r with Ok _ => Returned | Raise e => Raised e end]
    /\ invokes mid = List.length (sends mid)
    /\ listens mid = 0%nat
    /\ (during = [] -> mid = [] /\ start_with during s = start s)
    /\ (forall event,
          during = [event] ->
          str_eqb (event_type event) EVENT_STATE_CHANGED = true ->
          registrations (log (world s)) = 0%nat ->
          snd (start_suspended during s)
          = snd (write event
                   {| self := KafkaManager.self s;
                      world :=
                        {| log := log (world s)
                                  ++ [Listen EVENT_STATE_CHANGED HWrite;
                                      Invoke ProducerStart];
                           answers := answers (world s) |} |}))
    /\ (forall ops,
          exists eff,
            log (world (snd (run_ops ops s1))) = log (world s1) ++ eff).
Proof.
  assert (Nil2 : during = [] -> start_with during s = start s)
    by (intros ->; apply start_with_nil).
  set (s0 := {| self := KafkaManager.self s;
                world :=
                  {| log := log (world s)
                            ++ [Listen EVENT_STATE_CHANGED HWrite;
                                Invoke ProducerStart];
                     answers := answers (world s) |} |}).
  assert (Susp : start_suspended during s
                 = (Ok tt, fold_left (fun s' ev => fire ev s') during s0)).
  { destruct s as [me [l a]].
    unfold start_suspended, meanwhile, call, s0.
    cbn [bind emit KafkaManager.self world log answers].
    rewrite <- List.app_assoc. reflexivity. }
  assert (W : start_with during s
              = resume (fold_left (fun s' ev => fire ev s') during s0)).
  { unfold start_with, bind. rewrite Susp. reflexivity. }
  destruct (meanwhile_frame during s0) as (mid & E & V & L & _).
  assert (One : forall event,
    during = [event] ->
    str_eqb (event_type event) EVENT_STATE_CHANGED = true ->
    registrations (log (world s)) = 0%nat ->
    snd (start_suspended during s) = snd (write event s0)).
  { intros event D T R. rewrite Susp, D. cbn [snd fold_left]. unfold fire.
    rewrite T. unfold s0 at 1. cbn [world log].
    rewrite registrations_app, R. reflexivity. }
  assert (Nil : during = [] -> mid = []).
  { intros D. rewrite D in E. cbn [fold_left] in E. unfold s0 in E.
    inversion E as [H]. rewrite <- (List.app_nil_r (log (world s) ++ _)) in H at 1.
    apply app_inv_head in H. auto. }
  rewrite E in W. unfold s0 in W.
  cbn [KafkaManager.self world log answers] in W.
  assert (Mid : log (world (snd (start_suspended during s)))
                = log (world s)
                  ++ [Listen EVENT_STATE_CHANGED HWrite; Invoke ProducerStart]
                  ++ mid).
  { rewrite Susp. cbn [snd]. rewrite E. unfold s0. cbn [world log].
    rewrite <- List.app_assoc. reflexivity. }
  destruct (start_with during s) as [r s1]. exists mid.
  assert (Shape :
    KafkaManager.self s1 = KafkaManager.self s
    /\ log (world s1)
       = log (world s)
         ++ [Listen EVENT_STATE_CHANGED HWrite; Invoke ProducerStart] ++ mid
         ++ [match r with Ok _ => Returned | Raise e => Raised e end]).
  { unfold resume in W. cbn [KafkaManager.self world log answers] in W.
    destruct (skipn _ _) as [|[e|] a']; inversion W; subst;
      cbn [KafkaManager.self world log]; rewrite <- !List.app_assoc;
      split; reflexivity. }
  destruct Shape as [S1 S2].
  split; [exact S1|]. split; [exact Mid|].
  split; [exact S2|]. split; [exact V|]. split; [exact L|].
  split; [intros D; split; [apply Nil, D|apply Nil2, D]|].
  split; [exact One|].
  intros ops. destruct (run_ops_frame ops s1) as [_ H]. exact H.
Qed.

(** [start] on the manager of the scenario, with the event of the
    scenario arriving while the connection has not yet answered: the
    event is sent to [t1] while [start] is still suspended, and the
    completion of the connection's start is the last of the effects. *)
Lemma C8_counterexample :
  sends (log (world (snd (start_suspended [changed]
                            {| self := manager; world := quiet |}))))
  = [(lit "t1", payload)]
  /\ start_with [changed] {| self := manager; world := quiet |}
     = (Ok tt,
        {| self := manager;
           world :=
             {| log := [Listen EVENT_STATE_CHANGED HWrite;
                        Invoke ProducerStart;
                        Evaluate (lit "t1");
                        Invoke (SendAndWait (lit "t1") payload);
                        Returned;
                        Evaluate (lit "t2");
                        Returned];
                answers := [] |} |}).
Proof. vm_compute. split; reflexivity. Qed.

(** ** A set-up that fails *)

(** X8.  When the start of the connection raises, [async_setup] raises
    the same exception and undoes nothing: [write] stays registered.  On
    a hub where it was not registered before, a state change fired after
    the failed set-up is handled by [write] once, and is sent to every
    topic it qualifies for, on the connection whose start has failed. *)
Theorem X8_failed_setup_leaves_write_registered conf w e rest event p :
  answers w = Some e :: rest ->
  registrations (log w) = 0%nat ->
  str_eqb (event_type event) EVENT_STATE_CHANGED = true ->
  (forall new, new_state (data event) = Some new -> payload_of new = Ok p) ->
  acknowledges
    (List.length (qualifying (manager_of conf) event (CONF_TOPICS conf)))
    rest = true ->
  exists s1 eff,
    async_setup conf w = (Raise e, s1)
    /\ log (world s1) = log w ++ setup_effects ++ [Raised e]
    /\ fire event s1 = snd (write event s1)
    /\ log (world (fire event s1)) = log (world s1) ++ eff
    /\ sends eff
       = map (fun route => (topic route, p))
             (qualifying (manager_of conf) event (CONF_TOPICS conf)).
Proof.
  intros A R T P K. rewrite async_setup_run, A. do 2 eexists.
  split; [reflexivity|]. split; [reflexivity|].
  assert (F : forall s, registrations (log (world s)) = 1%nat ->
                        fire event s = snd (write event s)).
  { intros s H. unfold fire. rewrite T, H. reflexivity. }
  rewrite F.
  - split; [reflexivity|].
    rewrite (write_acknowledged (manager_of conf) event p _ rest P K).
    cbn [snd world log]. split; [reflexivity|].
    apply sends_route_effects.
  - cbn [world log]. rewrite !registrations_app, R. reflexivity.
Qed.

Lemma X8_failed_setup_leaves_write_registered_witness :
  answers failing = Some KafkaError :: []
  /\ registrations (log failing) = 0%nat
  /\ str_eqb (event_type changed) EVENT_STATE_CHANGED = true
  /\ acknowledges
       (List.length (qualifying (manager_of scenario_conf) changed
                       (CONF_TOPICS scenario_conf)))
       [] = true
  /\ exists s1 eff,
      async_setup scenario_conf failing = (Raise KafkaError, s1)
      /\ log (world s1) = log failing ++ setup_effects ++ [Raised KafkaError]
      /\ fire changed s1 = snd (write changed s1)
      /\ log (world (fire changed s1)) = log (world s1) ++ eff
      /\ sends eff
         = map (fun route => (topic route, payload))
               (qualifying (manager_of scenario_conf) changed
                  (CONF_TOPICS scenario_conf)).
Proof.
  repeat (split; [reflexivity|]).
  apply (X8_failed_setup_leaves_write_registered scenario_conf failing
           KafkaError [] changed payload);
    try reflexivity; exact scenario_payload.
Defined.
